(** * RimSort: the metadata factory (app/models/metadata/metadata_factory.py)

    A shallow embedding of the functions that turn the deserialized About.xml
    tree of a mod into a metadata record and its load-order rules, and the
    properties of that code. *)

From Stdlib Require Import String Ascii List Bool Arith ZArith Lia.
Import ListNotations.
Local Open Scope string_scope.
Local Open Scope list_scope.

Set Implicit Arguments.
Set Warnings "-register-all".

(** ** Python values *)

(** The values a deserialized descriptor holds (xmltodict gives strings,
    lists, dicts and None) together with [NFalse], the [False] the factory
    passes for an absent key.  A dict is an association list in insertion
    order; its keys are pairwise different. *)
Inductive node : Type :=
| NStr (s : string)
| NList (l : list node)
| NDict (d : list (string * node))
| NFalse
| NNone.

Definition dict := list (string * node).

Definition isinstance_str (n : node) : bool :=
  match n with NStr _ => true | _ => false end.

Definition isinstance_list (n : node) : bool :=
  match n with NList _ => true | _ => false end.

Definition isinstance_dict (n : node) : bool :=
  match n with NDict _ => true | _ => false end.

(** Python truthiness, [bool(x)]. *)
Definition truthy (n : node) : bool :=
  match n with
  | NStr s => negb (s =? "")
  | NList l => match l with [] => false | _ => true end
  | NDict d => match d with [] => false | _ => true end
  | NFalse => false
  | NNone => false
  end.

(** [x or y]. *)
Definition py_or (x y : node) : node := if truthy x then x else y.

(** [d.get(key, default)] and [d[key]] on a dict. *)
Fixpoint dict_find (d : dict) (key : string) : option node :=
  match d with
  | [] => None
  | (k, v) :: rest => if k =? key then Some v else dict_find rest key
  end.

Definition dict_get (d : dict) (key : string) (default : node) : node :=
  match dict_find d key with Some v => v | None => default end.

Definition dict_keys (d : dict) : list string := map fst d.

Definition mem_string (s : string) (l : list string) : bool :=
  existsb (String.eqb s) l.

(** [d.keys() == {a, b}]: equality of key sets. *)
Definition keys_are (d : dict) (a b : string) : bool :=
  forallb (fun k => (k =? a) || (k =? b)) (dict_keys d)
  && mem_string a (dict_keys d) && mem_string b (dict_keys d).

(** Python exceptions that the embedded code can raise.  [OutsideModel] is not
    a Python exception: it marks the inputs on which the behaviour depends on
    what this file does not model (a regular expression with syntax outside
    the fragment of [re_parse], an identifier set built from values that are
    not strings). *)
Inductive exn : Type :=
| ValueError
| TypeError
| KeyError
| AttributeError
| NotImplementedError
| DeserializationError
| OutsideModel.

Inductive outcome (A : Type) : Type :=
| Ok (a : A)
| Raise (e : exn).
Arguments Ok {A} a.
Arguments Raise {A} e.

Definition is_ok {A} (o : outcome A) : bool :=
  match o with Ok _ => true | Raise _ => false end.

(** ** value_extractor *)

(** [value_extractor(input)]: a string is returned as it is, a sequence as a
    list, a dict with one entry is replaced by the extraction of its value, a
    dict whose keys are exactly "@IgnoreIfNoMatchingField" and "#text" by its
    text, any other dict is returned as it is.  No branch of the source
    covers the remaining values, so the function falls off its end and gives
    None. *)
Fixpoint value_extractor (input : node) : node :=
  match input with
  | NStr s => NStr s
  | NList l => NList l
  | NDict d =>
      match d with
      | [(_, v)] => value_extractor v
      | _ =>
          if keys_are d "@IgnoreIfNoMatchingField" "#text"
          then dict_get d "#text" NNone
          else NDict d
      end
  | NFalse => NNone
  | NNone => NNone
  end.

(** ** match_version *)

Fixpoint split_on (sep : ascii) (acc s : string) : list string :=
  match s with
  | EmptyString => [acc]
  | String c rest =>
      if Ascii.eqb c sep then acc :: split_on sep "" rest
      else split_on sep (acc ++ String c "") rest
  end.

(** [s.split(".")]. *)
Definition split_dot (s : string) : list string := split_on "."%char "" s.

Definition is_alnum (c : ascii) : bool :=
  let n := nat_of_ascii c in
  (((48 <=? n) && (n <=? 57)) || ((65 <=? n) && (n <=? 90))
   || ((97 <=? n) && (n <=? 122)))%nat.

(** The characters with a meaning of their own in a regular expression. *)
Definition is_re_special (c : ascii) : bool :=
  mem_string (String c "")
    ["."; "^"; "$"; "*"; "+"; "?"; "{"; "}"; "["; "]"; "|"; "("; ")"].

(** The literal text a pattern stands for, when the pattern is made of
    ordinary characters and of escaped punctuation only ([\.] is a dot).
    None is for the patterns that are not literal text: those with an
    operator, a class or a trailing backslash. *)
Fixpoint re_literal (pattern : string) : option string :=
  match pattern with
  | EmptyString => Some ""
  | String c rest =>
      if Ascii.eqb c "\"%char then
        match rest with
        | EmptyString => None
        | String e rest' =>
            if is_alnum e then None
            else option_map (String e) (re_literal rest')
        end
      else if is_re_special c then None
      else option_map (String c) (re_literal rest)
  end.

(** The regular expressions of the fragment read here: alternatives
    separated by [|], each a sequence of items; an item is a character or the
    dot, alone or followed by one of [*], [+], [?]. *)
Inductive re_atom : Type :=
| AChar (c : ascii)
| AAny.

Inductive re_quantifier : Type := One | Star | Plus | Opt.

Definition re_item : Type := re_atom * re_quantifier.

Inductive re_class : Type := CBar | CStar | CPlus | COpt | CDot | COther | CLit.

(** The role of a character that is not a backslash. *)
Definition re_classify (c : ascii) : re_class :=
  if Ascii.eqb c "|" then CBar
  else if Ascii.eqb c "*" then CStar
  else if Ascii.eqb c "+" then CPlus
  else if Ascii.eqb c "?" then COpt
  else if Ascii.eqb c "." then CDot
  else if is_re_special c then COther
  else CLit.

(** The last item read gets a quantifier, when it has none yet. *)
Definition re_quantify (q : re_quantifier) (current : list re_item)
    (can_quantify : bool) : option (list re_item) :=
  match current, can_quantify with
  | (a, One) :: before, true => Some ((a, q) :: before)
  | _, _ => None
  end.

(** The pattern read from left to right: [branches] are the alternatives
    that are complete, [current] the items of the alternative being read, the
    last one first.  None is for the syntax outside the fragment: a group, a
    class, an anchor, a brace, a backslash before a letter or a digit, a
    quantifier after a quantifier or with nothing before it. *)
Fixpoint re_parse (pattern : string) (branches : list (list re_item))
    (current : list re_item) (can_quantify : bool)
  : option (list (list re_item)) :=
  match pattern with
  | EmptyString => Some (rev (rev current :: branches))
  | String c rest =>
      if Ascii.eqb c "\"%char then
        match rest with
        | EmptyString => None
        | String e rest' =>
            if is_alnum e then None
            else re_parse rest' branches ((AChar e, One) :: current) true
        end
      else
        match re_classify c with
        | CBar => re_parse rest (rev current :: branches) [] false
        | CStar =>
            match re_quantify Star current can_quantify with
            | Some current' => re_parse rest branches current' false
            | None => None
            end
        | CPlus =>
            match re_quantify Plus current can_quantify with
            | Some current' => re_parse rest branches current' false
            | None => None
            end
        | COpt =>
            match re_quantify Opt current can_quantify with
            | Some current' => re_parse rest branches current' false
            | None => None
            end
        | CDot => re_parse rest branches ((AAny, One) :: current) true
        | COther => None
        | CLit => re_parse rest branches ((AChar c, One) :: current) true
        end
  end.

(** The dot is any character but the newline. *)
Definition re_atom_matches (a : re_atom) (c : ascii) : bool :=
  match a with
  | AChar x => Ascii.eqb x c
  | AAny => negb (Ascii.eqb c "010"%char)
  end.

(** A sequence of items matches at the start of a string.  [k] tries the
    items after the first one; a repeated item takes characters one by one
    and [k] is tried after each of them. *)
Fixpoint re_items_match (items : list re_item) : string -> bool :=
  match items with
  | [] => fun _ => true
  | (a, q) :: rest =>
      let k := re_items_match rest in
      let star :=
        fix star (s : string) : bool :=
          k s
          || match s with
             | EmptyString => false
             | String c s' => re_atom_matches a c && star s'
             end in
      match q with
      | One =>
          fun s =>
            match s with
            | EmptyString => false
            | String c s' => re_atom_matches a c && k s'
            end
      | Opt =>
          fun s =>
            k s
            || match s with
               | EmptyString => false
               | String c s' => re_atom_matches a c && k s'
               end
      | Star => star
      | Plus =>
          fun s =>
            match s with
            | EmptyString => false
            | String c s' => re_atom_matches a c && star s'
            end
      end
  end.

(** [re.match(pattern, key)] as a truth value: one of the alternatives has to
    match at the start of the key, not all of it. *)
Definition re_match (pattern key : string) : option bool :=
  option_map (fun branches => existsb (fun items => re_items_match items key) branches)
    (re_parse pattern [] [] false).

(** [major, minor = target_version.split(".")[:2]]: the unpacking raises
    ValueError when the target has no dot. *)
Definition major_minor (target_version : string) : outcome (string * string) :=
  match firstn 2 (split_dot target_version) with
  | [major; minor] => Ok (major, minor)
  | _ => Raise ValueError
  end.

Definition version_regex (major minor : string) : string :=
  "v" ++ major ++ "\." ++ minor.

(** The loop over [input.items()], with the list [results] built so far. *)
Fixpoint match_version_loop (regex : string) (stop_at_first : bool)
    (items : dict) (results : list node) : outcome (bool * option (list node)) :=
  match items with
  | [] =>
      match results with
      | [] => Ok (false, None)
      | _ => Ok (true, Some results)
      end
  | (key, value) :: rest =>
      match re_match regex key with
      | None => Raise OutsideModel
      | Some true =>
          if stop_at_first then Ok (true, Some [value])
          else match_version_loop regex stop_at_first rest (results ++ [value])
      | Some false => match_version_loop regex stop_at_first rest results
      end
  end.

Definition match_version (input : dict) (target_version : string)
    (stop_at_first : bool) : outcome (bool * option (list node)) :=
  match major_minor target_version with
  | Raise e => Raise e
  | Ok (major, minor) =>
      match_version_loop (version_regex major minor) stop_at_first input []
  end.

(** ** Identifiers *)

Definition lower_ascii (c : ascii) : ascii :=
  let n := nat_of_ascii c in
  if ((65 <=? n) && (n <=? 90))%nat then ascii_of_nat (n + 32) else c.

(** [s.lower()], on the ASCII letters. *)
Fixpoint lower (s : string) : string :=
  match s with
  | EmptyString => EmptyString
  | String c rest => String (lower_ascii c) (lower rest)
  end.

(** Modelled from the spec: the class CaseInsensitiveStr of
    app/models/metadata/metadata_structure.py, which is not among the sources.
    It is a string compared and hashed by its lower-cased form (spec, 3 and
    4.1).  Its text is the lower-cased string: the test
    test_case_insensitive_str (tests/models/metadata/test_metadata_structure.py)
    asserts [str(CaseInsensitiveStr("TESTPACKAGE")) == "testpackage"]. *)
Record CaseInsensitiveStr : Type := CIStr { ci_text : string }.

Definition CaseInsensitiveStr_new (value : string) : CaseInsensitiveStr :=
  CIStr (lower value).

(** [a == b] between two identifiers, and between an identifier and a string. *)
Definition ci_eqb (a b : CaseInsensitiveStr) : bool :=
  lower (ci_text a) =? lower (ci_text b).

Definition ci_eq_str (a : CaseInsensitiveStr) (s : string) : bool :=
  lower (ci_text a) =? lower s.

(** Modelled from the spec: the class CaseInsensitiveSet of
    metadata_structure.py (spec, 3 and 4.1): identifiers without repetition, the
    first one seen of each kept, in the order they were first seen. *)
Definition CaseInsensitiveSet := list CaseInsensitiveStr.

Definition ci_mem (x : CaseInsensitiveStr) (s : CaseInsensitiveSet) : bool :=
  existsb (ci_eqb x) s.

Definition ci_add (s : CaseInsensitiveSet) (x : CaseInsensitiveStr)
  : CaseInsensitiveSet :=
  if ci_mem x s then s else s ++ [x].

Fixpoint strings_of (l : list node) : option (list string) :=
  match l with
  | [] => Some []
  | NStr s :: rest => option_map (cons s) (strings_of rest)
  | _ :: _ => None
  end.

(** [CaseInsensitiveSet(iterable)].  The spec defines the construction of an
    identifier from a string only; a list with another value is outside the
    model. *)
Definition CaseInsensitiveSet_new (l : list node) : outcome CaseInsensitiveSet :=
  match strings_of l with
  | Some ss => Ok (fold_left ci_add (map CaseInsensitiveStr_new ss) [])
  | None => Raise OutsideModel
  end.

(** [needle in hay] on strings. *)
Fixpoint contains (needle hay : string) : bool :=
  String.prefix needle hay
  || match hay with
     | EmptyString => false
     | String _ rest => contains needle rest
     end.

(** ** Records *)

(** Modelled from the spec: DependencyMod of metadata_structure.py (spec, 3 and
    4.6): an identifier, a display name and a workshop URL, each absent until
    it is set. *)
Record DependencyMod : Type := {
  dep_package_id : option CaseInsensitiveStr;
  dep_name : option string;
  dep_workshop_url : option string
}.

Definition DependencyMod_new : DependencyMod :=
  {| dep_package_id := None; dep_name := None; dep_workshop_url := None |}.

(** Modelled from the spec: BaseRules of metadata_structure.py (spec, 3,
    RuleSet).  [dependencies] is a dict from identifier to DependencyMod, kept
    in insertion order. *)
Record BaseRules : Type := {
  dependencies : list (option CaseInsensitiveStr * DependencyMod);
  load_before : CaseInsensitiveSet;
  load_after : CaseInsensitiveSet;
  incompatible_with : CaseInsensitiveSet
}.

Definition BaseRules_new : BaseRules :=
  {| dependencies := []; load_before := []; load_after := [];
     incompatible_with := [] |}.

Inductive mod_class : Type := ListedModClass | RuledModClass | LudeonModClass.

(** Modelled from the spec: ListedMod, RuledMod and LudeonMod of
    metadata_structure.py (spec, 3, ModRecord).  The source changes the class of
    an object and keeps its __dict__, so one record holds the attributes of
    the three classes beside the class itself; an attribute a class does not
    have is None.  [name] holds the text of the string object stored in the
    attribute. *)
Record ListedMod : Type := {
  class_of : mod_class;
  package_id : CaseInsensitiveStr;
  name : string;
  description : string;
  authors : list node;
  supported_versions : list node;
  valid : bool;
  mod_path : option string;
  steam_app_id : option Z;
  mod_version : option string;
  mod_icon_path : option string;
  url : option string;
  about_rules : option BaseRules
}.

(** The constructors called without fields ([RuledMod()]) and with the validity
    flag ([ListedMod(valid=False)]): a record with empty fields. *)
Definition new_mod (c : mod_class) (v : bool) : ListedMod :=
  {| class_of := c; package_id := CaseInsensitiveStr_new ""; name := "";
     description := ""; authors := []; supported_versions := []; valid := v;
     mod_path := None; steam_app_id := None; mod_version := None;
     mod_icon_path := None; url := None; about_rules := None |}.

Definition RuledMod_new : ListedMod := new_mod RuledModClass true.
Definition ListedMod_invalid : ListedMod := new_mod ListedModClass false.

Definition isinstance_LudeonMod (m : ListedMod) : bool :=
  match class_of m with LudeonModClass => true | _ => false end.

Definition isinstance_RuledMod (m : ListedMod) : bool :=
  match class_of m with RuledModClass => true | _ => false end.

Definition with_class (m : ListedMod) (c : mod_class) : ListedMod :=
  {| class_of := c; package_id := package_id m; name := name m;
     description := description m; authors := authors m;
     supported_versions := supported_versions m; valid := valid m;
     mod_path := mod_path m; steam_app_id := steam_app_id m;
     mod_version := mod_version m; mod_icon_path := mod_icon_path m;
     url := url m; about_rules := about_rules m |}.

Definition with_package_id (m : ListedMod) (p : CaseInsensitiveStr) : ListedMod :=
  {| class_of := class_of m; package_id := p; name := name m;
     description := description m; authors := authors m;
     supported_versions := supported_versions m; valid := valid m;
     mod_path := mod_path m; steam_app_id := steam_app_id m;
     mod_version := mod_version m; mod_icon_path := mod_icon_path m;
     url := url m; about_rules := about_rules m |}.

Definition with_name (m : ListedMod) (s : string) : ListedMod :=
  {| class_of := class_of m; package_id := package_id m; name := s;
     description := description m; authors := authors m;
     supported_versions := supported_versions m; valid := valid m;
     mod_path := mod_path m; steam_app_id := steam_app_id m;
     mod_version := mod_version m; mod_icon_path := mod_icon_path m;
     url := url m; about_rules := about_rules m |}.

Definition with_description (m : ListedMod) (s : string) : ListedMod :=
  {| class_of := class_of m; package_id := package_id m; name := name m;
     description := s; authors := authors m;
     supported_versions := supported_versions m; valid := valid m;
     mod_path := mod_path m; steam_app_id := steam_app_id m;
     mod_version := mod_version m; mod_icon_path := mod_icon_path m;
     url := url m; about_rules := about_rules m |}.

Definition with_authors (m : ListedMod) (l : list node) : ListedMod :=
  {| class_of := class_of m; package_id := package_id m; name := name m;
     description := description m; authors := l;
     supported_versions := supported_versions m; valid := valid m;
     mod_path := mod_path m; steam_app_id := steam_app_id m;
     mod_version := mod_version m; mod_icon_path := mod_icon_path m;
     url := url m; about_rules := about_rules m |}.

Definition with_supported_versions (m : ListedMod) (l : list node) : ListedMod :=
  {| class_of := class_of m; package_id := package_id m; name := name m;
     description := description m; authors := authors m;
     supported_versions := l; valid := valid m;
     mod_path := mod_path m; steam_app_id := steam_app_id m;
     mod_version := mod_version m; mod_icon_path := mod_icon_path m;
     url := url m; about_rules := about_rules m |}.

Definition with_valid (m : ListedMod) (v : bool) : ListedMod :=
  {| class_of := class_of m; package_id := package_id m; name := name m;
     description := description m; authors := authors m;
     supported_versions := supported_versions m; valid := v;
     mod_path := mod_path m; steam_app_id := steam_app_id m;
     mod_version := mod_version m; mod_icon_path := mod_icon_path m;
     url := url m; about_rules := about_rules m |}.

Definition with_mod_path (m : ListedMod) (p : string) : ListedMod :=
  {| class_of := class_of m; package_id := package_id m; name := name m;
     description := description m; authors := authors m;
     supported_versions := supported_versions m; valid := valid m;
     mod_path := Some p; steam_app_id := steam_app_id m;
     mod_version := mod_version m; mod_icon_path := mod_icon_path m;
     url := url m; about_rules := about_rules m |}.

Definition with_mod_version (m : ListedMod) (s : string) : ListedMod :=
  {| class_of := class_of m; package_id := package_id m; name := name m;
     description := description m; authors := authors m;
     supported_versions := supported_versions m; valid := valid m;
     mod_path := mod_path m; steam_app_id := steam_app_id m;
     mod_version := Some s; mod_icon_path := mod_icon_path m;
     url := url m; about_rules := about_rules m |}.

Definition with_mod_icon_path (m : ListedMod) (s : string) : ListedMod :=
  {| class_of := class_of m; package_id := package_id m; name := name m;
     description := description m; authors := authors m;
     supported_versions := supported_versions m; valid := valid m;
     mod_path := mod_path m; steam_app_id := steam_app_id m;
     mod_version := mod_version m; mod_icon_path := Some s;
     url := url m; about_rules := about_rules m |}.

Definition with_url (m : ListedMod) (s : string) : ListedMod :=
  {| class_of := class_of m; package_id := package_id m; name := name m;
     description := description m; authors := authors m;
     supported_versions := supported_versions m; valid := valid m;
     mod_path := mod_path m; steam_app_id := steam_app_id m;
     mod_version := mod_version m; mod_icon_path := mod_icon_path m;
     url := Some s; about_rules := about_rules m |}.

Definition with_about_rules (m : ListedMod) (r : BaseRules) : ListedMod :=
  {| class_of := class_of m; package_id := package_id m; name := name m;
     description := description m; authors := authors m;
     supported_versions := supported_versions m; valid := valid m;
     mod_path := mod_path m; steam_app_id := steam_app_id m;
     mod_version := mod_version m; mod_icon_path := mod_icon_path m;
     url := url m; about_rules := Some r |}.

(** The call of LudeonMod on the attributes of [mod] (its vars) and
    [steam_app_id=n]: a LudeonMod with the attributes of [mod] and the app id. *)
Definition LudeonMod_of (m : ListedMod) (n : Z) : ListedMod :=
  {| class_of := LudeonModClass; package_id := package_id m; name := name m;
     description := description m; authors := authors m;
     supported_versions := supported_versions m; valid := valid m;
     mod_path := mod_path m; steam_app_id := Some n;
     mod_version := mod_version m; mod_icon_path := mod_icon_path m;
     url := url m; about_rules := about_rules m |}.

(** ** The log and the monad of the factory *)

Inductive level : Type := INFO | WARNING | ERROR.

(** The messages the factory logs, with the values they are formatted from. *)
Inductive message : Type :=
| PackageIdNotString (package_id : node)
| DetectedKnownLudeon (package_id : CaseInsensitiveStr)
| PossiblyLudeon (package_id : CaseInsensitiveStr)
| SteamAppIdMissing (package_id : CaseInsensitiveStr)
| SteamAppIdNotInteger (steam_app_id : node) (package_id : CaseInsensitiveStr)
| SteamAppIdFound (steam_app_id : Z) (package_id : CaseInsensitiveStr)
| NoValidName (defaulting_to : option string)
| NoValidDescription
| NoValidAuthors
| NoValidSupportedVersions
| DuplicateDependency (package_id : option CaseInsensitiveStr)
| SkippingInvalidDependency (dependency : node)
| UnableToParse (mod_xml_path : string)
| CouldNotParse (mod_xml_path : string).

Definition log_entry : Type := level * message.

(** A computation returns a value or raises, and writes to the log. *)
Definition M (A : Type) : Type := outcome A * list log_entry.

Definition ret {A} (a : A) : M A := (Ok a, []).

Definition raise {A} (e : exn) : M A := (Raise e, []).

Definition bind {A B} (m : M A) (f : A -> M B) : M B :=
  match m with
  | (Ok a, l) => let (r, l') := f a in (r, l ++ l')
  | (Raise e, l) => (Raise e, l)
  end.

Definition lift {A} (o : outcome A) : M A := (o, []).

Definition logger (lvl : level) (msg : message) : M unit := (Ok tt, [(lvl, msg)]).

Notation "x <- m ;; k" := (bind m (fun x => k))
  (at level 61, m at next level, right associativity).
Notation "m ;;; k" := (bind m (fun _ => k))
  (at level 61, right associativity).

(** ** The table of official content *)

(** An entry of RIMWORLD_DLC_METADATA (app/utils/constants.py, not among the
    sources): the table is a dict from the Steam app id to the package id,
    the name and the description of a DLC.  The app ids are decimal numbers
    written as strings; the table is keyed here by the number, which is what
    [int(appid)] and [str(steam_app_id)] convert between. *)
Record dlc : Type := {
  dlc_packageid : string;
  dlc_name : string;
  dlc_description : string
}.

Definition dlc_metadata : Type := list (Z * dlc).

Fixpoint insert_key (m : list (string * Z)) (k : string) (v : Z)
  : list (string * Z) :=
  match m with
  | [] => [(k, v)]
  | (k', v') :: rest =>
      if k' =? k then (k', v) :: rest else (k', v') :: insert_key rest k v
  end.

(** [get_dlc_packageid_appid_map()]: the dict comprehension from package id to
    app id; a later entry with the same package id replaces the app id. *)
Definition get_dlc_packageid_appid_map (tbl : dlc_metadata) : list (string * Z) :=
  fold_left (fun m e => insert_key m (dlc_packageid (snd e)) (fst e)) tbl [].

(** [m[package_id]] for an identifier: the keys of the map are plain strings,
    hashed as they are, the identifier is hashed by its lower-cased text. *)
Definition appid_of (m : list (string * Z)) (p : CaseInsensitiveStr) : option Z :=
  option_map snd (find (fun e => fst e =? ci_text p) m).

Definition metadata_of (tbl : dlc_metadata) (n : Z) : option dlc :=
  option_map snd (find (fun e => Z.eqb (fst e) n) tbl).

(** ** Conversions of Python *)

(** The characters [int()] takes for blanks, among the code points below
    256: the space, the controls 9 to 13 and 28 to 31, the next line 133 and
    the no-break space 160. *)
Definition is_space (c : ascii) : bool :=
  let n := nat_of_ascii c in
  ((n =? 32) || ((9 <=? n) && (n <=? 13)) || ((28 <=? n) && (n <=? 31))
   || (n =? 133) || (n =? 160))%nat.

Fixpoint lstrip (s : string) : string :=
  match s with
  | EmptyString => EmptyString
  | String c rest => if is_space c then lstrip rest else s
  end.

Fixpoint string_rev (s : string) : string :=
  match s with
  | EmptyString => EmptyString
  | String c rest => string_rev rest ++ String c EmptyString
  end.

Definition strip (s : string) : string :=
  string_rev (lstrip (string_rev (lstrip s))).

Definition digit_of (c : ascii) : option Z :=
  let n := nat_of_ascii c in
  if ((48 <=? n) && (n <=? 57))%nat then Some (Z.of_nat (n - 48)) else None.

(** The digits of an integer literal: underscores are allowed one at a time
    between two digits. *)
Fixpoint int_digits (s : string) (acc : Z) (need_digit : bool) : option Z :=
  match s with
  | EmptyString => if need_digit then None else Some acc
  | String c rest =>
      match digit_of c with
      | Some d => int_digits rest (acc * 10 + d)%Z false
      | None =>
          if Ascii.eqb c "_"%char && negb need_digit
          then int_digits rest acc true
          else None
      end
  end.

Fixpoint digit_count (s : string) : nat :=
  match s with
  | EmptyString => 0
  | String c rest =>
      match digit_of c with
      | Some _ => S (digit_count rest)
      | None => digit_count rest
      end
  end.

(** [sys.int_max_str_digits], as CPython sets it when it starts. *)
Definition int_max_str_digits : nat := 4300.

(** [int(s)] for a string of code points below 256, where the decimal digits
    are the ASCII ones; None stands for ValueError, which [int()] also raises
    for a literal of more than [int_max_str_digits] digits. *)
Definition py_int (s : string) : option Z :=
  if (int_max_str_digits <? digit_count s)%nat then None
  else
    match strip s with
    | String "-"%char rest => option_map Z.opp (int_digits rest 0%Z true)
    | String "+"%char rest => int_digits rest 0%Z true
    | body => int_digits body 0%Z true
    end.

(** The values a set can hold: lists and dicts are not hashable. *)
Definition hashable (n : node) : bool :=
  match n with NList _ | NDict _ => false | _ => true end.

(** [a == b] on hashable values. *)
Definition hashable_eqb (a b : node) : bool :=
  match a, b with
  | NStr x, NStr y => x =? y
  | NFalse, NFalse => true
  | NNone, NNone => true
  | _, _ => false
  end.

Definition set_add (s : list node) (x : node) : list node :=
  if existsb (hashable_eqb x) s then s else s ++ [x].

(** [set(l)]: TypeError when an element is not hashable.  The set is listed
    in the order of first occurrence. *)
Definition py_set (l : list node) : outcome (list node) :=
  if forallb hashable l then Ok (fold_left set_add l []) else Raise TypeError.

Definition chars (s : string) : list node :=
  map (fun c => NStr (String c EmptyString)) (list_ascii_of_string s).

(** The elements [list.extend(x)] appends: the characters of a string, the
    elements of a list, the keys of a dict.  It is applied to truthy values
    of [value_extractor] only, which are of these three kinds. *)
Definition py_iter (x : node) : list node :=
  match x with
  | NStr s => chars s
  | NList l => l
  | NDict d => map (fun kv => NStr (fst kv)) d
  | NFalse | NNone => []
  end.

(** ** The record builder *)

(** [_set_mod_invalid(mod, message)]. *)
Definition _set_mod_invalid (m : ListedMod) (msg : message) : M ListedMod :=
  logger WARNING msg ;;; ret (with_valid m false).

Section Factory.

Variable RIMWORLD_DLC_METADATA : dlc_metadata.

(** The blocks of [_parse_required], in the order of the source.
    [package_id_value] is the local variable [package_id] of the source: the
    value extracted for the key "packageId". *)

(** Lines 133-140. *)
Definition parse_package_id (package_id_value : node) (m : ListedMod)
  : M ListedMod :=
  match package_id_value with
  | NStr s => ret (with_package_id m (CaseInsensitiveStr_new s))
  | _ => _set_mod_invalid m (PackageIdNotString package_id_value)
  end.

(** Lines 156-179: the branch of the package ids with "ludeon." in them. *)
Definition parse_steam_app_id (mod_data : dict) (m : ListedMod) : M ListedMod :=
  let steam_app_id := value_extractor (dict_get mod_data "steamAppId" NFalse) in
  match match steam_app_id with NStr s => py_int s | _ => None end with
  | None =>
      (if negb (truthy steam_app_id)
       then logger WARNING (SteamAppIdMissing (package_id m))
       else logger WARNING (SteamAppIdNotInteger steam_app_id (package_id m)))
      ;;; ret m
  | Some steam_app_id_int =>
      let m := LudeonMod_of m steam_app_id_int in
      logger INFO (SteamAppIdFound steam_app_id_int (package_id m)) ;;;
      let m := with_description m "Unknown Ludeon mod" in
      ret (with_name m "Unknown Ludeon mod")
  end.

(** Lines 142-179. *)
Definition parse_ludeon (mod_data : dict) (m : ListedMod) : M ListedMod :=
  match appid_of (get_dlc_packageid_appid_map RIMWORLD_DLC_METADATA)
          (package_id m) with
  | Some appid =>
      logger INFO (DetectedKnownLudeon (package_id m)) ;;;
      let m := LudeonMod_of m appid in
      match metadata_of RIMWORLD_DLC_METADATA appid with
      | Some entry =>
          let m := with_name m (dlc_name entry) in
          ret (with_description m (dlc_description entry))
      | None => raise KeyError
      end
  | None =>
      if contains "ludeon." (ci_text (package_id m)) then
        logger WARNING (PossiblyLudeon (package_id m)) ;;;
        parse_steam_app_id mod_data m
      else ret m
  end.

(** Lines 181-191. *)
Definition parse_name (mod_data : dict) (package_id_value : node)
    (m : ListedMod) : M ListedMod :=
  match value_extractor (dict_get mod_data "name" NFalse) with
  | NStr s => ret (with_name m s)
  | _ =>
      if isinstance_LudeonMod m then ret m
      else
        match package_id_value with
        | NStr s =>
            _set_mod_invalid (with_name m (ci_text (package_id m)))
              (NoValidName (Some s))
        | _ => _set_mod_invalid m (NoValidName None)
        end
  end.

(** Lines 193-200. *)
Definition parse_description (mod_data : dict) (m : ListedMod) : M ListedMod :=
  match value_extractor (dict_get mod_data "description" NFalse) with
  | NStr s => ret (with_description m s)
  | _ =>
      if isinstance_LudeonMod m then ret m
      else _set_mod_invalid m NoValidDescription
  end.

(** Lines 202-214. *)
Definition parse_authors (mod_data : dict) (m : ListedMod) : M ListedMod :=
  let author := value_extractor (dict_get mod_data "author" NFalse) in
  let authors_value := value_extractor (dict_get mod_data "authors" NFalse) in
  let m :=
    match author with
    | NStr _ => with_authors m (authors m ++ [author])
    | _ => m
    end in
  let m :=
    if truthy authors_value
    then with_authors m (authors m ++ py_iter authors_value)
    else m in
  if negb (truthy (py_or author authors_value)) && negb (isinstance_LudeonMod m)
  then _set_mod_invalid m NoValidAuthors
  else ret m.

(** Lines 216-225. *)
Definition parse_supported_versions (mod_data : dict) (m : ListedMod)
  : M ListedMod :=
  match value_extractor (dict_get mod_data "supportedVersions" NFalse) with
  | NList l =>
      versions <- lift (py_set l) ;;
      ret (with_supported_versions m versions)
  | NStr s => ret (with_supported_versions m [NStr s])
  | _ =>
      if isinstance_LudeonMod m then ret m
      else _set_mod_invalid m NoValidSupportedVersions
  end.

(** [_parse_required(mod_data, mod)]. *)
Definition _parse_required (mod_data : dict) (m : ListedMod) : M ListedMod :=
  let package_id_value :=
    value_extractor (dict_get mod_data "packageId" NFalse) in
  m <- parse_package_id package_id_value m ;;
  m <- parse_ludeon mod_data m ;;
  m <- parse_name mod_data package_id_value m ;;
  m <- parse_description mod_data m ;;
  m <- parse_authors mod_data m ;;
  parse_supported_versions mod_data m.

(** ** The rule builder *)

(** [create_mod_dependency(input_dict)]: the three fields are read from the
    dict itself, without [value_extractor]. *)
Definition create_mod_dependency (input_dict : dict) : DependencyMod :=
  let m := DependencyMod_new in
  let m :=
    match dict_get input_dict "packageId" NFalse with
    | NStr s =>
        {| dep_package_id := Some (CaseInsensitiveStr_new s);
           dep_name := dep_name m; dep_workshop_url := dep_workshop_url m |}
    | _ => m
    end in
  let m :=
    match dict_get input_dict "displayName" NFalse with
    | NStr s =>
        {| dep_package_id := dep_package_id m; dep_name := Some s;
           dep_workshop_url := dep_workshop_url m |}
    | _ => m
    end in
  match dict_get input_dict "workshopUrl" NFalse with
  | NStr s =>
      {| dep_package_id := dep_package_id m; dep_name := dep_name m;
         dep_workshop_url := Some s |}
  | _ => m
  end.

(** Equality of the keys of [rules.dependencies]. *)
Definition key_eqb (a b : option CaseInsensitiveStr) : bool :=
  match a, b with
  | Some x, Some y => ci_eqb x y
  | None, None => true
  | _, _ => false
  end.

Definition deps := list (option CaseInsensitiveStr * DependencyMod).

(** [key in rules.dependencies]. *)
Definition deps_mem (k : option CaseInsensitiveStr) (d : deps) : bool :=
  existsb (fun e => key_eqb k (fst e)) d.

Definition deps_find (k : option CaseInsensitiveStr) (d : deps)
  : option DependencyMod :=
  option_map snd (find (fun e => key_eqb k (fst e)) d).

(** The body of the loop of lines 275-288 for one entry. *)
Definition add_dependency (d : deps) (dependency : node) : M deps :=
  match dependency with
  | NDict input_dict =>
      let dep := create_mod_dependency input_dict in
      if deps_mem (dep_package_id dep) d
      then logger WARNING (DuplicateDependency (dep_package_id dep)) ;;; ret d
      else ret (d ++ [(dep_package_id dep, dep)])
  | _ => logger WARNING (SkippingInvalidDependency dependency) ;;; ret d
  end.

(** The loop [for dependency in mod_dependencies]. *)
Fixpoint add_dependencies (d : deps) (mod_dependencies : list node) : M deps :=
  match mod_dependencies with
  | [] => ret d
  | dependency :: rest =>
      d' <- add_dependency d dependency ;;
      add_dependencies d' rest
  end.

(** [x if isinstance(x, list) else [x]]. *)
Definition as_list (x : node) : list node :=
  match x with NList l => l | _ => [x] end.

(** The entries of a ByVersion field that match the target are appended:
    [if isinstance(v, dict): _, r = match_version(v, target); if r: l.extend(r)]. *)
Definition extend_by_version (l : list node) (by_version : node)
    (target_version : string) : outcome (list node) :=
  match by_version with
  | NDict d =>
      match match_version d target_version false with
      | Raise e => Raise e
      | Ok (_, Some matched) => Ok (l ++ matched)
      | Ok (_, None) => Ok l
      end
  | _ => Ok l
  end.

(** The list handed to CaseInsensitiveSet by [load_operations]. *)
Definition load_list (mod_data : dict) (key force_key target_version : string)
  : outcome (list node) :=
  let load := as_list (value_extractor (dict_get mod_data key (NList []))) in
  let loadByVersion :=
    value_extractor (dict_get mod_data (key ++ "ByVersion") (NDict [])) in
  match extend_by_version load loadByVersion target_version with
  | Raise e => Raise e
  | Ok load =>
      let forceLoad :=
        as_list (value_extractor (dict_get mod_data force_key (NList []))) in
      Ok (load ++ forceLoad)
  end.

(** [load_operations(mod_data, key, force_key, target_version)]. *)
Definition load_operations (mod_data : dict) (key force_key target_version : string)
  : outcome CaseInsensitiveSet :=
  match load_list mod_data key force_key target_version with
  | Raise e => Raise e
  | Ok load => CaseInsensitiveSet_new load
  end.

(** [create_base_rules(mod_data, target_version)]. *)
Definition create_base_rules (mod_data : dict) (target_version : string)
  : M BaseRules :=
  let mod_dependencies :=
    as_list (value_extractor (dict_get mod_data "modDependencies" (NList []))) in
  let versioned_mod_dependencies :=
    value_extractor (dict_get mod_data "modDependenciesByVersion" (NDict [])) in
  mod_dependencies <-
    lift (extend_by_version mod_dependencies versioned_mod_dependencies
            target_version) ;;
  dependencies <- add_dependencies [] mod_dependencies ;;
  load_before <-
    lift (load_operations mod_data "loadBefore" "forceLoadBefore" target_version) ;;
  load_after <-
    lift (load_operations mod_data "loadAfter" "forceLoadAfter" target_version) ;;
  let incompatible_with :=
    as_list (value_extractor (dict_get mod_data "incompatibleWith" (NList []))) in
  let incompatible_withByVersion :=
    value_extractor (dict_get mod_data "incompatibleWithByVersion" (NDict [])) in
  incompatible_with <-
    lift (extend_by_version incompatible_with incompatible_withByVersion
            target_version) ;;
  incompatible_with <- lift (CaseInsensitiveSet_new incompatible_with) ;;
  ret {| dependencies := dependencies; load_before := load_before;
         load_after := load_after; incompatible_with := incompatible_with |}.

(** ** The optional fields and the entry points *)

(** [if x and isinstance(x, str)]. *)
Definition nonempty_str (x : node) : option string :=
  match x with
  | NStr s => if truthy x then Some s else None
  | _ => None
  end.

(** The statements of [_parse_optional] before its last one: the record with
    the optional fields and the rules. *)
Definition _parse_optional_fields (mod_data : dict) (m : ListedMod)
    (target_version : string) : M ListedMod :=
  let m :=
    match nonempty_str (value_extractor (dict_get mod_data "modVersion" NFalse)) with
    | Some s => with_mod_version m s
    | None => m
    end in
  let m :=
    match nonempty_str (value_extractor (dict_get mod_data "modIconPath" NFalse)) with
    | Some s => with_mod_icon_path m s
    | None => m
    end in
  let m :=
    match nonempty_str (value_extractor (dict_get mod_data "url" NFalse)) with
    | Some s => with_url m s
    | None => m
    end in
  rules <- create_base_rules mod_data target_version ;;
  ret (with_about_rules m rules).

(** [_parse_optional(mod_data, mod, target_version)]: its last statement is
    [raise NotImplementedError]. *)
Definition _parse_optional (mod_data : dict) (m : ListedMod)
    (target_version : string) : M ListedMod :=
  _parse_optional_fields mod_data m target_version ;;;
  raise NotImplementedError.

(** [create_listed_mod(mod_data, target_version)]. *)
Definition create_listed_mod (mod_data : dict) (target_version : string)
  : M (bool * ListedMod) :=
  m <- _parse_required mod_data RuledMod_new ;;
  let m := if isinstance_RuledMod m then m else with_class m RuledModClass in
  m <- _parse_optional mod_data m target_version ;;
  ret (valid m, m).

(** [x[key]]: KeyError on a dict without the key, TypeError on the other
    values. *)
Definition subscript (x : node) (key : string) : outcome node :=
  match x with
  | NDict d =>
      match dict_find d key with Some v => Ok v | None => Raise KeyError end
  | _ => Raise TypeError
  end.

(** [create_listed_mod_from_xml(mod_xml_path, target_version)].
    [xml_path_to_json] (app/utils/xml.py, not among the sources) reads the file
    at a path: it gives a tree or raises.  A truthy [mod_data] that is not a
    dict has no [get]: AttributeError. *)
Definition create_listed_mod_from_xml
    (xml_path_to_json : string -> outcome node)
    (mod_xml_path target_version : string) : M (bool * ListedMod) :=
  match
    match xml_path_to_json mod_xml_path with
    | Ok root => subscript root "ModMetaData"
    | Raise e => Raise e
    end
  with
  | Raise _ =>
      logger ERROR (UnableToParse mod_xml_path) ;;; ret (false, ListedMod_invalid)
  | Ok mod_data =>
      if negb (truthy mod_data) then
        logger ERROR (CouldNotParse mod_xml_path) ;;; ret (false, ListedMod_invalid)
      else
        match mod_data with
        | NDict d =>
            r <- create_listed_mod d target_version ;;
            ret (fst r, with_mod_path (snd r) mod_xml_path)
        | _ => raise AttributeError
        end
  end.

End Factory.

(** ** Sample inputs *)

(** Two entries of the table of official content. *)
Definition sample_dlc_metadata : dlc_metadata :=
  [ (294100%Z,
     {| dlc_packageid := "ludeon.rimworld"; dlc_name := "RimWorld";
        dlc_description := "Base game" |});
    (1149640%Z,
     {| dlc_packageid := "ludeon.rimworld.royalty";
        dlc_name := "RimWorld - Royalty";
        dlc_description := "Royalty expansion" |}) ].

(** A descriptor with the five required fields, in the shape xmltodict gives
    to About.xml. *)
Definition complete_descriptor : dict :=
  [ ("packageId", NStr "Foo.Bar");
    ("name", NStr "Foo");
    ("description", NStr "A mod");
    ("author", NStr "Someone");
    ("supportedVersions", NDict [("li", NStr "1.5")]) ].

(** ** Vocabulary of the statements *)

(** The values extracted for the required fields of a descriptor. *)
Definition extracted (mod_data : dict) (key : string) : node :=
  value_extractor (dict_get mod_data key NFalse).

(** [set(supported_versions)] does not raise: a list extracted for
    "supportedVersions" holds hashable values only. *)
Definition versions_hashable (mod_data : dict) : bool :=
  match extracted mod_data "supportedVersions" with
  | NList l => forallb hashable l
  | _ => true
  end.

(** The target version has the shape a regular expression reads as text:
    none of its characters is an operator or a backslash. *)
Definition plain_char (c : ascii) : bool :=
  negb (is_re_special c) && negb (Ascii.eqb c "\"%char).

Fixpoint plain (s : string) : bool :=
  match s with
  | EmptyString => true
  | String c rest => plain_char c && plain rest
  end.

Fixpoint has_dot (s : string) : bool :=
  match s with
  | EmptyString => false
  | String c rest => Ascii.eqb c "."%char || has_dot rest
  end.

(** The values of the entries whose label matches, in the order of the dict. *)
Definition matching_values (prefix_ : string) (input : dict) : list node :=
  map snd (filter (fun kv => String.prefix prefix_ (fst kv)) input).

(** The key of the dependency made from an entry. *)
Definition entry_key (input_dict : dict) : option CaseInsensitiveStr :=
  dep_package_id (create_mod_dependency input_dict).

Definition has_key (k : option CaseInsensitiveStr) (entry : node) : bool :=
  match entry with
  | NDict input_dict => key_eqb k (entry_key input_dict)
  | _ => false
  end.

(** The first entry of a list that is a dict and gives the key [k]. *)
Fixpoint first_with_key (k : option CaseInsensitiveStr) (l : list node)
  : option dict :=
  match l with
  | [] => None
  | NDict input_dict :: rest =>
      if key_eqb k (entry_key input_dict) then Some input_dict
      else first_with_key k rest
  | _ :: rest => first_with_key k rest
  end.

Definition count_key (k : option CaseInsensitiveStr) (d : deps) : nat :=
  length (filter (fun e => key_eqb k (fst e)) d).

(** What the blocks of [_parse_required] after the official-content block do
    to the record [m2] they receive: each field is filled from its own key,
    and the validity flag is the conjunction of the flag received and of the
    checks of the four blocks, which the LudeonMod class waives. *)
Definition required_fields (d : dict) (m2 m' : ListedMod) : Prop :=
  class_of m' = class_of m2
  /\ package_id m' = package_id m2
  /\ steam_app_id m' = steam_app_id m2
  /\ name m' =
       match extracted d "name" with
       | NStr s => s
       | _ =>
           if isinstance_LudeonMod m2 then name m2
           else match extracted d "packageId" with
                | NStr _ => ci_text (package_id m2)
                | _ => name m2
                end
       end
  /\ description m' =
       match extracted d "description" with
       | NStr s => s
       | _ => description m2
       end
  /\ authors m' =
       authors m2
       ++ match extracted d "author" with NStr a => [NStr a] | _ => [] end
       ++ (if truthy (extracted d "authors")
           then py_iter (extracted d "authors") else [])
  /\ supported_versions m' =
       match extracted d "supportedVersions" with
       | NList l => fold_left set_add l []
       | NStr s => [NStr s]
       | _ => supported_versions m2
       end
  /\ valid m' =
       valid m2
       && (isinstance_LudeonMod m2
           || (isinstance_str (extracted d "name")
               && isinstance_str (extracted d "description")
               && truthy (py_or (extracted d "author") (extracted d "authors"))
               && (isinstance_list (extracted d "supportedVersions")
                   || isinstance_str (extracted d "supportedVersions")))).


(** The required checks of a descriptor other than the one of the
    identifier. *)
Definition fields_resolved (d : dict) : bool :=
  isinstance_str (extracted d "name")
  && isinstance_str (extracted d "description")
  && truthy (py_or (extracted d "author") (extracted d "authors"))
  && (isinstance_list (extracted d "supportedVersions")
      || isinstance_str (extracted d "supportedVersions")).

(** The root of a deserialized file has no "ModMetaData" entry. *)
Definition lacks_ModMetaData (root : node) : Prop :=
  match root with
  | NDict d => dict_find d "ModMetaData" = None
  | _ => True
  end.

(** Along the wrappers [value_extractor] goes through, the "#text" of a dict
    with the keys "@IgnoreIfNoMatchingField" and "#text" is a string, as it is
    in a tree made from XML. *)
Fixpoint text_payload_is_str (n : node) : bool :=
  match n with
  | NDict d =>
      match d with
      | [(_, v)] => text_payload_is_str v
      | _ =>
          if keys_are d "@IgnoreIfNoMatchingField" "#text"
          then isinstance_str (dict_get d "#text" NNone)
          else true
      end
  | _ => true
  end.

(** The value of an optional field after [_parse_optional]: a non-empty string
    of the descriptor replaces the value the record had. *)
Definition optional_field (mod_data : dict) (key : string) (old : option string)
  : option string :=
  match nonempty_str (extracted mod_data key) with
  | Some s => Some s
  | None => old
  end.


(** The items of a pattern that is the text [lit]. *)
Definition literal_items (lit : string) : list re_item :=
  map (fun c => (AChar c, One)) (list_ascii_of_string lit).

(** The ten keys [create_base_rules] reads. *)
Definition rule_keys : list string :=
  ["modDependencies"; "modDependenciesByVersion";
   "loadBefore"; "loadBeforeByVersion"; "forceLoadBefore";
   "loadAfter"; "loadAfterByVersion"; "forceLoadAfter";
   "incompatibleWith"; "incompatibleWithByVersion"].

Example value_extractor_li :
  value_extractor (NDict [("li", NList [NStr "1.4"; NStr "1.5"])])
  = NList [NStr "1.4"; NStr "1.5"].
Proof. reflexivity. Qed.

Example match_version_15 :
  match_version [("v1.4", NStr "a"); ("v1.5", NStr "b"); ("v1.5-extra", NStr "c")]
    "1.5.2" false = Ok (true, Some [NStr "b"; NStr "c"]).
Proof. reflexivity. Qed.

Example py_int_blanks :
  py_int (String (ascii_of_nat 28) "5") = Some 5%Z
  /\ py_int (String (ascii_of_nat 160) "5") = Some 5%Z
  /\ py_int "+ 5" = None /\ py_int "007" = Some 7%Z.
Proof. vm_compute. repeat split. Qed.

Example py_int_examples :
  py_int " 294100 " = Some 294100%Z /\ py_int "-1_000" = Some (-1000)%Z
  /\ py_int "12a" = None /\ py_int "" = None /\ py_int "1__0" = None.
Proof. vm_compute. repeat split. Qed.

(** An identifier with "ludeon." that is not in the table: the app id of the
    descriptor makes the record a LudeonMod with the placeholder name, and
    the missing name and description do not invalidate it. *)
Example parse_required_unknown_ludeon :
  _parse_required sample_dlc_metadata
    [("packageId", NStr "Ludeon.RimWorld.Next"); ("steamAppId", NStr "123")]
    RuledMod_new
  = (Ok (with_name
           (with_description
              (LudeonMod_of
                 (with_package_id RuledMod_new (CIStr "ludeon.rimworld.next"))
                 123%Z)
              "Unknown Ludeon mod")
           "Unknown Ludeon mod"),
     [(WARNING, PossiblyLudeon (CIStr "ludeon.rimworld.next"));
      (INFO, SteamAppIdFound 123%Z (CIStr "ludeon.rimworld.next"))]).
Proof. vm_compute. reflexivity. Qed.

(** A list of supported versions with a dict in it: [set()] raises. *)
Example parse_required_unhashable_versions :
  fst (_parse_required sample_dlc_metadata
         [("packageId", NStr "Foo.Bar");
          ("supportedVersions",
           NDict [("li", NList [NDict [("a", NStr "1"); ("b", NStr "2")];
                                NStr "1.5"])])]
         RuledMod_new)
  = Raise TypeError.
Proof. vm_compute. reflexivity. Qed.

Example re_match_examples :
  re_match "v1\.*" "v1...5" = Some true /\ re_match "a+b?" "aac" = Some true
  /\ re_match "a+" "b" = Some false /\ re_match "a|" "b" = Some true
  /\ re_match "a.c" (String "a" (String "010" "c")) = Some false
  /\ re_match "(a)" "a" = None /\ re_match "*a" "a" = None
  /\ re_match "a**" "a" = None /\ re_match "a\d" "a1" = None.
Proof. vm_compute. repeat split. Qed.

Example match_version_nodot :
  match_version [("v1.4", NStr "a")] "15" false = Raise ValueError.
Proof. reflexivity. Qed.

(** * Properties *)

(** ** Strings and the version matcher *)

Lemma append_assoc (a b c : string) : ((a ++ b) ++ c = a ++ (b ++ c))%string.
Proof. induction a as [|x a IH]; cbn; [reflexivity | now rewrite IH]. Qed.

Lemma append_nil_r (a : string) : (a ++ "" = a)%string.
Proof. induction a as [|x a IH]; cbn; [reflexivity | now rewrite IH]. Qed.

Lemma split_on_no_sep (s acc : string) :
  has_dot s = false -> split_on "."%char acc s = [(acc ++ s)%string].
Proof.
  revert acc. induction s as [|c s IH]; intros acc H; cbn in *.
  - now rewrite append_nil_r.
  - apply orb_false_elim in H as [Hc Hs]. rewrite Hc.
    rewrite IH by assumption. now rewrite append_assoc.
Qed.

Lemma split_on_sep (a b acc : string) :
  has_dot a = false ->
  split_on "."%char acc (a ++ String "."%char b)
  = (acc ++ a)%string :: split_on "."%char "" b.
Proof.
  revert acc. induction a as [|c a IH]; intros acc H; cbn in *.
  - now rewrite append_nil_r.
  - apply orb_false_elim in H as [Hc Ha]. rewrite Hc.
    rewrite IH by assumption. now rewrite append_assoc.
Qed.

Lemma split_on_nonempty (s acc : string) : split_on "."%char acc s <> [].
Proof.
  revert acc. induction s as [|c s IH]; intros acc; cbn.
  - discriminate.
  - destruct (Ascii.eqb c "."); [discriminate | apply IH].
Qed.

(** A target without a dot cannot be unpacked into major and minor. *)
Lemma major_minor_no_dot (tv : string) :
  has_dot tv = false -> major_minor tv = Raise ValueError.
Proof.
  intros H. unfold major_minor, split_dot. now rewrite split_on_no_sep.
Qed.

(** The first two components of the target are its major and minor. *)
Lemma major_minor_two (major minor : string) :
  has_dot major = false -> has_dot minor = false ->
  major_minor (major ++ "." ++ minor) = Ok (major, minor).
Proof.
  intros Ha Hb. unfold major_minor, split_dot. cbn [append].
  rewrite split_on_sep by assumption.
  now rewrite split_on_no_sep.
Qed.

Lemma major_minor_more (major minor rest : string) :
  has_dot major = false -> has_dot minor = false ->
  major_minor (major ++ "." ++ minor ++ "." ++ rest) = Ok (major, minor).
Proof.
  intros Ha Hb. unfold major_minor, split_dot. cbn [append].
  rewrite split_on_sep by assumption.
  rewrite split_on_sep by assumption. cbn.
  destruct (split_on "." "" rest) eqn:E; reflexivity.
Qed.

Lemma re_literal_plain (s t : string) :
  plain s = true ->
  re_literal (s ++ t) = option_map (append s) (re_literal t).
Proof.
  induction s as [|c s IH]; intros H; cbn [append re_literal plain] in *.
  - now destruct (re_literal t).
  - apply andb_prop in H as [Hc Hs]. unfold plain_char in Hc.
    apply andb_prop in Hc as [Hsp Hbs].
    apply negb_true_iff in Hsp, Hbs. rewrite Hbs, Hsp.
    rewrite IH by assumption. now destruct (re_literal t).
Qed.

(** The pattern of a plain target is the text "v", major, ".", minor. *)
Lemma re_literal_version_regex (major minor : string) :
  plain major = true -> plain minor = true ->
  re_literal (version_regex major minor)
  = Some ("v" ++ major ++ "." ++ minor)%string.
Proof.
  intros Ha Hb. unfold version_regex. cbn [append re_literal].
  change (Ascii.eqb "v" "\") with false. change (is_re_special "v") with false.
  cbn iota. rewrite re_literal_plain by assumption.
  cbn [re_literal append]. change (Ascii.eqb "\" "\") with true.
  change (is_alnum ".") with false. cbn iota.
  rewrite <- (append_nil_r minor) at 1.
  rewrite re_literal_plain by assumption. cbn.
  now rewrite append_nil_r.
Qed.

Lemma re_classify_plain (c : ascii) :
  is_re_special c = false -> re_classify c = CLit.
Proof.
  destruct c as [[] [] [] [] [] [] [] []]; vm_compute;
    intros H; try reflexivity; discriminate H.
Qed.

(** A pattern that is literal text is read as the sequence of its characters,
    added to the alternative being read. *)
Lemma re_parse_literal :
  forall (pattern lit : string) branches current q,
    re_literal pattern = Some lit ->
    re_parse pattern branches current q
    = Some (rev (rev (rev (literal_items lit) ++ current) :: branches)).
Proof.
  fix IH 1. intros pattern lit branches current q H.
  destruct pattern as [|c rest].
  - cbn in H. inversion H; subst lit. reflexivity.
  - cbn [re_literal re_parse] in *.
    destruct (Ascii.eqb c "\") eqn:B.
    + destruct rest as [|e rest']; [discriminate|].
      destruct (is_alnum e); [discriminate|].
      destruct (re_literal rest') as [lit'|] eqn:L; [|discriminate].
      cbn in H. inversion H; subst lit.
      rewrite (IH rest' lit' branches ((AChar e, One) :: current) true L).
      unfold literal_items. cbn [list_ascii_of_string map rev].
      now rewrite <- app_assoc.
    + destruct (is_re_special c) eqn:S; [discriminate|].
      rewrite (re_classify_plain c S).
      destruct (re_literal rest) as [lit'|] eqn:L; [|discriminate].
      cbn in H. inversion H; subst lit.
      rewrite (IH rest lit' branches ((AChar c, One) :: current) true L).
      unfold literal_items. cbn [list_ascii_of_string map rev].
      now rewrite <- app_assoc.
Qed.

Lemma re_items_match_literal (lit : string) :
  forall key, re_items_match (literal_items lit) key = String.prefix lit key.
Proof.
  induction lit as [|a lit IH]; intros key.
  - now destruct key.
  - unfold literal_items in *. cbn [list_ascii_of_string map re_items_match].
    destruct key as [|b key]; cbn [String.prefix re_atom_matches];
      [reflexivity|].
    destruct (ascii_dec a b) as [-> | Hne].
    + rewrite Ascii.eqb_refl. apply IH.
    + apply Ascii.eqb_neq in Hne. now rewrite Hne.
Qed.

(** For a pattern that is literal text, [re.match] is the test of the
    prefix. *)
Lemma re_match_literal (pattern lit key : string) :
  re_literal pattern = Some lit ->
  re_match pattern key = Some (String.prefix lit key).
Proof.
  intros H. unfold re_match. rewrite (re_parse_literal _ [] [] false H).
  cbn [rev app option_map existsb]. rewrite app_nil_r, rev_involutive.
  now rewrite re_items_match_literal, orb_false_r.
Qed.

Lemma match_version_loop_all (regex lit : string) (items : dict) :
  re_literal regex = Some lit ->
  forall results,
    match_version_loop regex false items results
    = Ok match results ++ matching_values lit items with
         | [] => (false, None)
         | vs => (true, Some vs)
         end.
Proof.
  intros Hlit. induction items as [|[key value] rest IH]; intros results.
  - cbn. rewrite app_nil_r. now destruct results.
  - cbn [match_version_loop]. rewrite (re_match_literal _ key Hlit).
    unfold matching_values in *. cbn [filter fst].
    destruct (String.prefix lit key); cbn [map snd].
    + rewrite IH. now rewrite <- app_assoc.
    + apply IH.
Qed.

Lemma match_version_loop_first (regex lit : string) (items : dict) :
  re_literal regex = Some lit ->
  match_version_loop regex true items []
  = Ok match matching_values lit items with
       | [] => (false, None)
       | v :: _ => (true, Some [v])
       end.
Proof.
  intros Hlit. induction items as [|[key value] rest IH].
  - reflexivity.
  - cbn [match_version_loop]. rewrite (re_match_literal _ key Hlit).
    unfold matching_values in *. cbn [filter fst].
    destruct (String.prefix lit key); cbn [map snd].
    + reflexivity.
    + apply IH.
Qed.

(** C7, as the code has it.  For a target whose major and minor hold no
    character with a meaning in a regular expression, as version numbers do,
    [match_version] selects the entries whose label begins with "v" followed
    by the major and minor of the target and a dot between them: the match is
    anchored at the start of the label and need not cover it.  Major and
    minor are the first two dot-separated components of the target, later
    components are ignored.  Without a match the result is [(False, None)];
    with matches it is all the matched values in the order of the dict, or
    the first one alone when [stop_at_first] is set.  A target without a dot
    fails at once with ValueError. *)
Theorem match_version_major_minor_prefix :
  forall (input : dict) (major minor rest target_version : string),
    has_dot major = false -> has_dot minor = false ->
    plain major = true -> plain minor = true ->
    target_version = (major ++ "." ++ minor)%string
    \/ target_version = (major ++ "." ++ minor ++ "." ++ rest)%string ->
    let label := ("v" ++ major ++ "." ++ minor)%string in
    match_version input target_version false
    = Ok match matching_values label input with
         | [] => (false, None)
         | vs => (true, Some vs)
         end
    /\ match_version input target_version true
       = Ok match matching_values label input with
            | [] => (false, None)
            | v :: _ => (true, Some [v])
            end
    /\ (forall (no_dot : string) (stop_at_first : bool),
          has_dot no_dot = false ->
          match_version input no_dot stop_at_first = Raise ValueError).
Proof.
  intros input major minor rest tv Ha Hb Pa Pb Htv label.
  assert (Hmm : major_minor tv = Ok (major, minor)).
  { destruct Htv as [-> | ->];
      [now apply major_minor_two | now apply major_minor_more]. }
  pose proof (re_literal_version_regex major minor Pa Pb) as Hlit.
  unfold match_version. rewrite Hmm. repeat split.
  - now rewrite (match_version_loop_all _ input Hlit).
  - now rewrite (match_version_loop_first _ input Hlit).
  - intros no_dot b Hn. now rewrite major_minor_no_dot.
Qed.

Lemma match_version_major_minor_prefix_witness :
  let input := [("v1.4", NStr "a"); ("v1.5", NStr "b"); ("v1.5-extra", NStr "c")] in
  match_version input "1.5.2" false = Ok (true, Some [NStr "b"; NStr "c"])
  /\ match_version input "1.5.2" true = Ok (true, Some [NStr "b"])
  /\ match_version input "15" false = Raise ValueError
  /\ match_version [("v1.4", NStr "a")] "1.5" false = Ok (false, None).
Proof.
  intros input.
  destruct (@match_version_major_minor_prefix input "1" "5" "2" "1.5.2"
              eq_refl eq_refl eq_refl eq_refl (or_intror eq_refl))
    as (H1 & H2 & H3).
  destruct (@match_version_major_minor_prefix [("v1.4", NStr "a")] "1" "5" "" "1.5"
              eq_refl eq_refl eq_refl eq_refl (or_introl eq_refl))
    as (H4 & _).
  exact (conj H1 (conj H2 (conj (H3 "15" false eq_refl) H4))).
Defined.

(** C7 as the specification states it fails: the components of the target are
    put in the pattern as they are, so that a target with a dot whose minor
    is "*" matches the label "v1", which does not begin with "v1.*", and a
    target whose major is "1|x" matches the label "x.5", which does not begin
    with "v". *)
Lemma match_version_target_read_as_pattern :
  has_dot "1.*" = true
  /\ match_version [("v1", NStr "a")] "1.*" false = Ok (true, Some [NStr "a"])
  /\ String.prefix "v1.*" "v1" = false
  /\ has_dot "1|x.5" = true
  /\ match_version [("x.5", NStr "a")] "1|x.5" false = Ok (true, Some [NStr "a"])
  /\ String.prefix "v1|x.5" "x.5" = false.
Proof. repeat (split; [vm_compute; reflexivity|]). vm_compute. reflexivity. Qed.

(** ** The monad *)

Lemma bind_ok {A B} (m : M A) (f : A -> M B) a l1 b l2 :
  m = (Ok a, l1) -> f a = (Ok b, l2) -> bind m f = (Ok b, l1 ++ l2).
Proof. intros -> H. unfold bind. now rewrite H. Qed.

Lemma bind_raise {A B} (m : M A) (f : A -> M B) a l1 e l2 :
  m = (Ok a, l1) -> f a = (Raise e, l2) -> bind m f = (Raise e, l1 ++ l2).
Proof. intros -> H. unfold bind. now rewrite H. Qed.

Lemma bind_ok_inv {A B} (m : M A) (f : A -> M B) b l :
  bind m f = (Ok b, l) ->
  exists a l1 l2, m = (Ok a, l1) /\ f a = (Ok b, l2) /\ l = l1 ++ l2.
Proof.
  unfold bind. destruct m as [[a|e] l1]; [|discriminate].
  destruct (f a) as [r l2] eqn:E. intros H. inversion H; subst.
  now exists a, l1, l2.
Qed.

(** ** The table of official content *)

Lemma insert_key_In (m : list (string * Z)) k0 v0 k v :
  In (k, v) (insert_key m k0 v0) -> In (k, v) m \/ v = v0.
Proof.
  induction m as [|[k' v'] m IH]; cbn.
  - intros [H | []]. inversion H. now right.
  - destruct (k' =? k0)%string; cbn.
    + intros [H | H]; [inversion H; now right | left; now right].
    + intros [H | H]; [left; now left |].
      destruct (IH H) as [H' | H']; [left; now right | now right].
Qed.

Lemma appid_map_from_table (tbl : dlc_metadata) k v :
  In (k, v) (get_dlc_packageid_appid_map tbl) -> exists e, In (v, e) tbl.
Proof.
  unfold get_dlc_packageid_appid_map.
  assert (G : forall l acc,
             (forall k v, In (k, v) acc -> exists e, In (v, e) tbl) ->
             incl l tbl ->
             forall k v,
               In (k, v)
                 (fold_left
                    (fun m e => insert_key m (dlc_packageid (snd e)) (fst e))
                    l acc) ->
               exists e, In (v, e) tbl).
  { induction l as [|[n e] l IH]; intros acc Hacc Hincl k' v'; cbn.
    - apply Hacc.
    - apply IH.
      + intros k1 v1 H1. apply insert_key_In in H1 as [H1 | ->].
        * eapply Hacc; eassumption.
        * exists e. apply Hincl. now left.
      + intros x Hx. apply Hincl. now right. }
  apply (G tbl []); [intros ? ? [] | apply incl_refl].
Qed.

(** The app id found for a package id has its metadata in the table. *)
Lemma appid_of_metadata (tbl : dlc_metadata) p n :
  appid_of (get_dlc_packageid_appid_map tbl) p = Some n ->
  exists e, metadata_of tbl n = Some e.
Proof.
  unfold appid_of, metadata_of. intros H.
  destruct (find _ (get_dlc_packageid_appid_map tbl)) as [[k v]|] eqn:F;
    [|discriminate].
  cbn in H. inversion H; subst v.
  apply find_some in F as [Hin _].
  apply appid_map_from_table in Hin as [e He].
  destruct (find (fun e0 => Z.eqb (fst e0) n) tbl) as [[n' e']|] eqn:F'.
  - now exists e'.
  - exfalso. apply (find_none _ _ F') in He. cbn in He.
    now rewrite Z.eqb_refl in He.
Qed.

(** ** The blocks of the record builder *)

Lemma parse_package_id_spec (v : node) (m : ListedMod) :
  exists m' l,
    parse_package_id v m = (Ok m', l)
    /\ class_of m' = class_of m
    /\ package_id m' =
         match v with
         | NStr s => CaseInsensitiveStr_new s
         | _ => package_id m
         end
    /\ valid m' = valid m && isinstance_str v
    /\ name m' = name m /\ description m' = description m
    /\ authors m' = authors m
    /\ supported_versions m' = supported_versions m
    /\ steam_app_id m' = steam_app_id m.
Proof.
  destruct v; cbn; eexists; eexists; (split; [reflexivity|]); cbn;
    rewrite ?andb_true_r, ?andb_false_r; repeat split; reflexivity.
Qed.

Lemma parse_steam_app_id_spec (d : dict) (m : ListedMod) :
  exists m' l,
    parse_steam_app_id d m = (Ok m', l)
    /\ package_id m' = package_id m /\ valid m' = valid m
    /\ authors m' = authors m
    /\ supported_versions m' = supported_versions m
    /\ (m' = m \/ class_of m' = LudeonModClass).
Proof.
  unfold parse_steam_app_id.
  destruct (match value_extractor (dict_get d "steamAppId" NFalse) with
            | NStr s => py_int s
            | _ => None
            end) as [n|].
  - cbn. eexists; eexists; (split; [reflexivity|]); cbn.
    repeat split; try reflexivity. now right.
  - destruct (negb (truthy (value_extractor (dict_get d "steamAppId" NFalse))));
      cbn; eexists; eexists; (split; [reflexivity|]);
      repeat split; try reflexivity; now left.
Qed.

Lemma parse_ludeon_spec (tbl : dlc_metadata) (d : dict) (m : ListedMod) :
  exists m' l,
    parse_ludeon tbl d m = (Ok m', l)
    /\ package_id m' = package_id m /\ valid m' = valid m
    /\ authors m' = authors m
    /\ supported_versions m' = supported_versions m
    /\ (m' = m \/ class_of m' = LudeonModClass)
    /\ (forall n,
          appid_of (get_dlc_packageid_appid_map tbl) (package_id m) = Some n ->
          exists e,
            metadata_of tbl n = Some e
            /\ class_of m' = LudeonModClass /\ steam_app_id m' = Some n
            /\ name m' = dlc_name e /\ description m' = dlc_description e)
    /\ (appid_of (get_dlc_packageid_appid_map tbl) (package_id m) = None ->
        contains "ludeon." (ci_text (package_id m)) = false -> m' = m).
Proof.
  unfold parse_ludeon.
  destruct (appid_of (get_dlc_packageid_appid_map tbl) (package_id m))
    as [n|] eqn:E.
  - destruct (appid_of_metadata tbl _ E) as [e He]. rewrite He. cbn.
    eexists; eexists; (split; [reflexivity|]); cbn.
    repeat split; try reflexivity.
    + now right.
    + intros n' Hn'. inversion Hn'; subst n'. exists e. now repeat split.
    + discriminate.
  - destruct (contains "ludeon." (ci_text (package_id m))) eqn:C.
    + destruct (parse_steam_app_id_spec d m)
        as (m' & l & Hs & Hp & Hv & Ha & Hsv & Hc).
      exists m', ((WARNING, PossiblyLudeon (package_id m)) :: l).
      split; [cbn; now rewrite Hs|].
      repeat split; try assumption; discriminate.
    + cbn. eexists; eexists; (split; [reflexivity|]).
      repeat split; try reflexivity; try discriminate. now left.
Qed.

Lemma parse_name_spec (d : dict) (v : node) (m : ListedMod) :
  exists m' l,
    parse_name d v m = (Ok m', l)
    /\ class_of m' = class_of m /\ package_id m' = package_id m
    /\ steam_app_id m' = steam_app_id m
    /\ name m' =
         match extracted d "name" with
         | NStr s => s
         | _ =>
             if isinstance_LudeonMod m then name m
             else match v with
                  | NStr _ => ci_text (package_id m)
                  | _ => name m
                  end
         end
    /\ description m' = description m /\ authors m' = authors m
    /\ supported_versions m' = supported_versions m
    /\ valid m' =
         valid m && (isinstance_LudeonMod m || isinstance_str (extracted d "name")).
Proof.
  unfold parse_name, extracted.
  destruct (value_extractor (dict_get d "name" NFalse));
    destruct (isinstance_LudeonMod m); destruct v; cbn;
    eexists; eexists; (split; [reflexivity|]); cbn;
    rewrite ?andb_true_r, ?andb_false_r; repeat split; reflexivity.
Qed.

Lemma parse_description_spec (d : dict) (m : ListedMod) :
  exists m' l,
    parse_description d m = (Ok m', l)
    /\ class_of m' = class_of m /\ package_id m' = package_id m
    /\ steam_app_id m' = steam_app_id m /\ name m' = name m
    /\ description m' =
         match extracted d "description" with
         | NStr s => s
         | _ => description m
         end
    /\ authors m' = authors m
    /\ supported_versions m' = supported_versions m
    /\ valid m' =
         valid m
         && (isinstance_LudeonMod m || isinstance_str (extracted d "description")).
Proof.
  unfold parse_description, extracted.
  destruct (value_extractor (dict_get d "description" NFalse));
    destruct (isinstance_LudeonMod m); cbn;
    eexists; eexists; (split; [reflexivity|]); cbn;
    rewrite ?andb_true_r, ?andb_false_r; repeat split; reflexivity.
Qed.

Lemma parse_authors_spec (d : dict) (m : ListedMod) :
  exists m' l,
    parse_authors d m = (Ok m', l)
    /\ class_of m' = class_of m /\ package_id m' = package_id m
    /\ steam_app_id m' = steam_app_id m /\ name m' = name m
    /\ description m' = description m
    /\ authors m' =
         authors m
         ++ match extracted d "author" with NStr a => [NStr a] | _ => [] end
         ++ (if truthy (extracted d "authors")
             then py_iter (extracted d "authors") else [])
    /\ supported_versions m' = supported_versions m
    /\ valid m' =
         valid m
         && (isinstance_LudeonMod m
             || truthy (py_or (extracted d "author") (extracted d "authors")))
    /\ (truthy (py_or (extracted d "author") (extracted d "authors")) = true ->
        l = []).
Proof.
  unfold parse_authors, extracted.
  set (a := value_extractor (dict_get d "author" NFalse)).
  set (b := value_extractor (dict_get d "authors" NFalse)).
  set (m1 := match a with
             | NStr _ => with_authors m (authors m ++ [a])
             | _ => m
             end).
  set (m2 := if truthy b then with_authors m1 (authors m1 ++ py_iter b) else m1).
  assert (H1 : class_of m1 = class_of m /\ package_id m1 = package_id m
               /\ steam_app_id m1 = steam_app_id m /\ name m1 = name m
               /\ description m1 = description m
               /\ authors m1 =
                    authors m ++ match a with NStr x => [NStr x] | _ => [] end
               /\ supported_versions m1 = supported_versions m
               /\ valid m1 = valid m).
  { subst m1. destruct a; cbn; rewrite ?app_nil_r; repeat split; reflexivity. }
  assert (H2 : class_of m2 = class_of m1 /\ package_id m2 = package_id m1
               /\ steam_app_id m2 = steam_app_id m1 /\ name m2 = name m1
               /\ description m2 = description m1
               /\ authors m2 =
                    authors m1 ++ (if truthy b then py_iter b else [])
               /\ supported_versions m2 = supported_versions m1
               /\ valid m2 = valid m1).
  { subst m2. destruct (truthy b); cbn; rewrite ?app_nil_r;
      repeat split; reflexivity. }
  destruct H1 as (C1 & P1 & S1 & N1 & D1 & A1 & V1 & F1).
  destruct H2 as (C2 & P2 & S2 & N2 & D2 & A2 & V2 & F2).
  assert (L : isinstance_LudeonMod m2 = isinstance_LudeonMod m)
    by (unfold isinstance_LudeonMod; now rewrite C2, C1).
  destruct (negb (truthy (py_or a b)) && negb (isinstance_LudeonMod m2)) eqn:C.
  - apply andb_prop in C as [Ct Cl].
    apply negb_true_iff in Ct, Cl. rewrite L in Cl.
    exists (with_valid m2 false), [(WARNING, NoValidAuthors)].
    split; [reflexivity|]. cbn.
    rewrite Ct, Cl, andb_false_r, A2, A1, <- app_assoc.
    repeat split; congruence.
  - exists m2, []. split; [reflexivity|].
    rewrite A2, A1, <- app_assoc, F2, F1.
    repeat split; try congruence.
    rewrite L in C.
    destruct (truthy (py_or a b)), (isinstance_LudeonMod m); cbn in *;
      rewrite ?andb_true_r; try reflexivity; discriminate.
Qed.

Lemma parse_supported_versions_spec (d : dict) (m : ListedMod) :
  versions_hashable d = true ->
  exists m' l,
    parse_supported_versions d m = (Ok m', l)
    /\ class_of m' = class_of m /\ package_id m' = package_id m
    /\ steam_app_id m' = steam_app_id m /\ name m' = name m
    /\ description m' = description m /\ authors m' = authors m
    /\ supported_versions m' =
         match extracted d "supportedVersions" with
         | NList l => fold_left set_add l []
         | NStr s => [NStr s]
         | _ => supported_versions m
         end
    /\ valid m' =
         valid m
         && (isinstance_LudeonMod m
             || (isinstance_list (extracted d "supportedVersions")
                 || isinstance_str (extracted d "supportedVersions"))).
Proof.
  unfold parse_supported_versions, versions_hashable, extracted, py_set.
  destruct (value_extractor (dict_get d "supportedVersions" NFalse)) as [s|l|x| |];
    intros H; try rewrite H; destruct (isinstance_LudeonMod m); cbn;
    eexists; eexists; (split; [reflexivity|]); cbn;
    rewrite ?andb_true_r, ?andb_false_r; repeat split; reflexivity.
Qed.

(** [set()] rejects a list of supported versions with a list or a dict in it. *)
Lemma parse_supported_versions_raises (d : dict) (m : ListedMod) :
  versions_hashable d = false ->
  parse_supported_versions d m = (Raise TypeError, []).
Proof.
  unfold parse_supported_versions, versions_hashable, extracted, py_set.
  destruct (value_extractor (dict_get d "supportedVersions" NFalse));
    intros H; try discriminate. now rewrite H.
Qed.

Lemma valid_chain (v l n de au sv : bool) :
  v && (l || n) && (l || de) && (l || au) && (l || sv)
  = v && (l || (n && de && au && sv)).
Proof. destruct v, l, n, de, au, sv; reflexivity. Qed.

(** The record builder as a whole: the identifier block and the
    official-content block give [m2], the four blocks after them fill the
    record as [required_fields] says, and the only failure is the TypeError
    of [set()]. *)
Lemma _parse_required_spec (tbl : dlc_metadata) (d : dict) (m : ListedMod) :
  exists m1 l1 m2 l2,
    parse_package_id (extracted d "packageId") m = (Ok m1, l1)
    /\ parse_ludeon tbl d m1 = (Ok m2, l2)
    /\ (versions_hashable d = true ->
        exists m' l,
          _parse_required tbl d m = (Ok m', l) /\ required_fields d m2 m')
    /\ (versions_hashable d = false ->
        exists l, _parse_required tbl d m = (Raise TypeError, l)).
Proof.
  destruct (parse_package_id_spec (extracted d "packageId") m)
    as (m1 & l1 & E1 & _).
  destruct (parse_ludeon_spec tbl d m1) as (m2 & l2 & E2 & _).
  destruct (parse_name_spec d (extracted d "packageId") m2)
    as (m3 & l3 & E3 & C3 & P3 & S3 & N3 & D3 & A3 & V3 & F3).
  destruct (parse_description_spec d m3)
    as (m4 & l4 & E4 & C4 & P4 & S4 & N4 & D4 & A4 & V4 & F4).
  destruct (parse_authors_spec d m4)
    as (m5 & l5 & E5 & C5 & P5 & S5 & N5 & D5 & A5 & V5 & F5 & _).
  assert (L3 : isinstance_LudeonMod m3 = isinstance_LudeonMod m2)
    by (unfold isinstance_LudeonMod; now rewrite C3).
  assert (L4 : isinstance_LudeonMod m4 = isinstance_LudeonMod m2)
    by (unfold isinstance_LudeonMod; now rewrite C4, C3).
  assert (L5 : isinstance_LudeonMod m5 = isinstance_LudeonMod m2)
    by (unfold isinstance_LudeonMod; now rewrite C5, C4, C3).
  exists m1, l1, m2, l2. split; [exact E1|]. split; [exact E2|].
  unfold extracted in E1, E3.
  split; intros H.
  - destruct (parse_supported_versions_spec d m5 H)
      as (m6 & l6 & E6 & C6 & P6 & S6 & N6 & D6 & A6 & V6 & F6).
    exists m6, (l1 ++ l2 ++ l3 ++ l4 ++ l5 ++ l6). split.
    + unfold _parse_required, bind.
      rewrite E1; cbv beta iota. rewrite E2; cbv beta iota.
      rewrite E3; cbv beta iota. rewrite E4; cbv beta iota.
      rewrite E5; cbv beta iota. rewrite E6. reflexivity.
    + unfold required_fields.
      rewrite C6, C5, C4, C3, P6, P5, P4, P3, S6, S5, S4, S3.
      rewrite N6, N5, N4, N3, D6, D5, D4, D3, A6, A5, A4, A3, V6, V5, V4, V3.
      rewrite F6, F5, F4, F3, L5, L4, L3.
      repeat split; try reflexivity.
      apply valid_chain.
  - exists (l1 ++ l2 ++ l3 ++ l4 ++ l5 ++ []).
    unfold _parse_required, bind.
    rewrite E1; cbv beta iota. rewrite E2; cbv beta iota.
    rewrite E3; cbv beta iota. rewrite E4; cbv beta iota.
    rewrite E5; cbv beta iota.
    rewrite (parse_supported_versions_raises d m5 H). reflexivity.
Qed.

(** ** Validity of the record *)

Lemma extracted_absent (d : dict) (key : string) :
  dict_find d key = None -> extracted d key = NNone.
Proof. intros H. unfold extracted, dict_get. now rewrite H. Qed.

(** The flag of the record returned by [_parse_required], in terms of the flag
    of the record it was given. *)
Lemma _parse_required_valid (tbl : dlc_metadata) (d : dict) (m : ListedMod) :
  versions_hashable d = true ->
  exists m1 l1 m2 l2 m' l,
    parse_package_id (extracted d "packageId") m = (Ok m1, l1)
    /\ parse_ludeon tbl d m1 = (Ok m2, l2)
    /\ _parse_required tbl d m = (Ok m', l)
    /\ required_fields d m2 m'
    /\ valid m' =
         valid m && isinstance_str (extracted d "packageId")
         && (isinstance_LudeonMod m' || fields_resolved d).
Proof.
  intros H.
  destruct (_parse_required_spec tbl d m) as (m1 & l1 & m2 & l2 & E1 & E2 & Hok & _).
  destruct (Hok H) as (m' & l & E & R).
  exists m1, l1, m2, l2, m', l.
  split; [exact E1|]. split; [exact E2|]. split; [exact E|]. split; [exact R|].
  destruct (parse_package_id_spec (extracted d "packageId") m)
    as (x & lx & Ex & _ & _ & Vx & _).
  rewrite E1 in Ex. inversion Ex; subst x lx.
  destruct (parse_ludeon_spec tbl d m1) as (y & ly & Ey & _ & Vy & _).
  rewrite E2 in Ey. inversion Ey; subst y ly.
  destruct R as (C & _ & _ & _ & _ & _ & _ & V).
  rewrite V, Vy, Vx. unfold isinstance_LudeonMod at 2. rewrite C.
  reflexivity.
Qed.

(** C9. [value_extractor] returns on every input (it is defined by recursion
    on the tree), and on a value that is not a string, a list or a dict, as
    the False passed for an absent key, it returns None.  So the value
    extracted for an absent required key is None, which no isinstance check
    accepts: the identifier block takes its invalid branch, and the record
    built from a descriptor without the key "packageId", or without one of
    "name", "description", "supportedVersions" when it is not official
    content, is invalid. *)
Theorem value_extractor_absent_key_invalid :
  forall (tbl : dlc_metadata) (d : dict) (m : ListedMod) (n : node) (key : string),
    isinstance_str n = false -> isinstance_list n = false ->
    isinstance_dict n = false ->
    In key ["packageId"; "name"; "description"; "supportedVersions"] ->
    dict_find d key = None ->
    versions_hashable d = true ->
    value_extractor n = NNone
    /\ value_extractor NFalse = NNone
    /\ extracted d key = NNone
    /\ (key = "packageId" ->
        parse_package_id (extracted d key) m
        = _set_mod_invalid m (PackageIdNotString NNone))
    /\ exists m' l,
         _parse_required tbl d m = (Ok m', l)
         /\ (key = "packageId" \/ isinstance_LudeonMod m' = false ->
             valid m' = false).
Proof.
  intros tbl d m n key Hs Hl Hd Hkey Habs Hh.
  pose proof (extracted_absent d key Habs) as Hx.
  split; [destruct n; cbn in *; congruence|].
  split; [reflexivity|]. split; [exact Hx|].
  split; [intros _; now rewrite Hx|].
  destruct (_parse_required_valid tbl d m Hh)
    as (m1 & l1 & m2 & l2 & m' & l & _ & _ & E & _ & V).
  exists m', l. split; [exact E|].
  intros Hc. rewrite V. unfold fields_resolved.
  destruct Hkey as [<- | [<- | [<- | [<- | []]]]]; rewrite Hx; cbn.
  - now rewrite andb_false_r.
  - destruct Hc as [Hc | Hc]; [discriminate|].
    rewrite Hc. cbn. apply andb_false_r.
  - destruct Hc as [Hc | Hc]; [discriminate|].
    rewrite Hc. cbn. rewrite andb_false_r. cbn. apply andb_false_r.
  - destruct Hc as [Hc | Hc]; [discriminate|].
    rewrite Hc. cbn. rewrite !andb_false_r. reflexivity.
Qed.

Lemma value_extractor_absent_key_invalid_witness :
  value_extractor NFalse = NNone
  /\ extracted [("name", NStr "Foo")] "packageId" = NNone
  /\ exists m' l,
       _parse_required sample_dlc_metadata [("name", NStr "Foo")] RuledMod_new
       = (Ok m', l)
       /\ valid m' = false.
Proof.
  destruct (@value_extractor_absent_key_invalid sample_dlc_metadata
              [("name", NStr "Foo")] RuledMod_new NFalse "packageId"
              eq_refl eq_refl eq_refl (or_introl eq_refl) eq_refl eq_refl)
    as (H1 & _ & H3 & _ & m' & l & E & V).
  exact (conj H1 (conj H3 (ex_intro _ m' (ex_intro _ l
           (conj E (V (or_introl eq_refl))))))).
Defined.




(** ** Authors *)

(** C10. When the value extracted for "authors" is a non-empty string, the
    authors block appends every character of the string as an author of its
    own, after the author of the key "author" if there is one; it logs
    nothing and leaves the validity flag as it was, and the flag of the record
    returned by [_parse_required] does not depend on the authors. *)
Theorem authors_string_extends_by_characters :
  forall (tbl : dlc_metadata) (d : dict) (m : ListedMod) (s : string),
    extracted d "authors" = NStr s -> s <> "" ->
    versions_hashable d = true ->
    (exists m5,
       parse_authors d m = (Ok m5, [])
       /\ valid m5 = valid m
       /\ authors m5 =
            authors m
            ++ match extracted d "author" with NStr a => [NStr a] | _ => [] end
            ++ chars s)
    /\ exists m' l,
         _parse_required tbl d m = (Ok m', l)
         /\ authors m' =
              authors m
              ++ match extracted d "author" with NStr a => [NStr a] | _ => [] end
              ++ chars s
         /\ valid m' =
              valid m && isinstance_str (extracted d "packageId")
              && (isinstance_LudeonMod m'
                  || (isinstance_str (extracted d "name")
                      && isinstance_str (extracted d "description")
                      && (isinstance_list (extracted d "supportedVersions")
                          || isinstance_str (extracted d "supportedVersions")))).
Proof.
  intros tbl d m s Hs Hne Hh.
  assert (Ht : truthy (extracted d "authors") = true).
  { rewrite Hs. cbn. now apply negb_true_iff, String.eqb_neq. }
  assert (Hor : truthy (py_or (extracted d "author") (extracted d "authors")) = true).
  { unfold py_or. destruct (truthy (extracted d "author")) eqn:Ta; assumption. }
  split.
  - destruct (parse_authors_spec d m)
      as (m5 & l5 & E & _ & _ & _ & _ & _ & A & _ & V & L).
    rewrite (L Hor) in E. exists m5. split; [exact E|].
    rewrite V, A, Hor, Ht, Hs, orb_true_r, andb_true_r. now split.
  - destruct (_parse_required_valid tbl d m Hh)
      as (m1 & l1 & m2 & l2 & m' & l & E1 & E2 & E & R & V).
    destruct R as (_ & _ & _ & _ & _ & A & _ & _).
    exists m', l. split; [exact E|]. split.
    + rewrite A, Ht, Hs.
      destruct (parse_ludeon_spec tbl d m1) as (y & ly & Ey & _ & _ & Ay & _).
      rewrite E2 in Ey. inversion Ey; subst y ly.
      destruct (parse_package_id_spec (extracted d "packageId") m)
        as (x & lx & Ex & _ & _ & _ & _ & _ & Ax & _).
      rewrite E1 in Ex. inversion Ex; subst x lx.
      now rewrite Ay, Ax.
    + rewrite V. unfold fields_resolved. now rewrite Hor, andb_true_r.
Qed.

Lemma authors_string_extends_by_characters_witness :
  exists m' l,
    _parse_required sample_dlc_metadata
      [("packageId", NStr "Foo.Bar"); ("name", NStr "Foo");
       ("description", NStr "A mod"); ("authors", NStr "Ann");
       ("supportedVersions", NStr "1.5")] RuledMod_new = (Ok m', l)
    /\ authors m' = [NStr "A"; NStr "n"; NStr "n"]
    /\ valid m' = true.
Proof.
  destruct (@authors_string_extends_by_characters sample_dlc_metadata
              [("packageId", NStr "Foo.Bar"); ("name", NStr "Foo");
               ("description", NStr "A mod"); ("authors", NStr "Ann");
               ("supportedVersions", NStr "1.5")] RuledMod_new "Ann"
              eq_refl ltac:(discriminate) eq_refl)
    as (_ & m' & l & E & A & V).
  refine (ex_intro _ m' (ex_intro _ l (conj E (conj A _)))).
  rewrite V. cbn. now rewrite orb_true_r.
Defined.

(** ** Names and official content *)

Lemma lower_ascii_idem (c : ascii) : lower_ascii (lower_ascii c) = lower_ascii c.
Proof. destruct c as [[] [] [] [] [] [] [] []]; reflexivity. Qed.

Lemma lower_idem (s : string) : lower (lower s) = lower s.
Proof.
  induction s as [|c s IH]; cbn; [reflexivity|].
  now rewrite lower_ascii_idem, IH.
Qed.

(** C4, as the code has it.  For a descriptor without the key "name" whose
    identifier is a string that is not official content (neither in the table
    nor with "ludeon." in it), the name of the record is the text of the
    identifier object, which is the identifier in lower case: it equals the
    identifier of the descriptor up to case, and the record is invalid. *)
Theorem missing_name_defaults_to_identifier_text :
  forall (tbl : dlc_metadata) (d : dict) (m : ListedMod) (s : string),
    dict_find d "name" = None ->
    extracted d "packageId" = NStr s ->
    appid_of (get_dlc_packageid_appid_map tbl) (CaseInsensitiveStr_new s) = None ->
    contains "ludeon." (lower s) = false ->
    isinstance_LudeonMod m = false ->
    versions_hashable d = true ->
    exists m' l,
      _parse_required tbl d m = (Ok m', l)
      /\ name m' = lower s
      /\ ci_eq_str (CIStr (name m')) s = true
      /\ valid m' = false.
Proof.
  intros tbl d m s Hname Hpid Htbl Hlud Hm Hh.
  destruct (_parse_required_valid tbl d m Hh)
    as (m1 & l1 & m2 & l2 & m' & l & E1 & E2 & E & R & V).
  destruct (parse_package_id_spec (extracted d "packageId") m)
    as (x & lx & Ex & Cx & Px & _).
  rewrite E1 in Ex. inversion Ex; subst x lx. rewrite Hpid in Px.
  destruct (parse_ludeon_spec tbl d m1) as (y & ly & Ey & _ & _ & _ & _ & _ & _ & Same).
  rewrite E2 in Ey. inversion Ey; subst y ly.
  rewrite Px in Same. specialize (Same Htbl Hlud). subst m2.
  assert (L1 : isinstance_LudeonMod m1 = false)
    by (unfold isinstance_LudeonMod in *; now rewrite Cx).
  destruct R as (C & _ & _ & N & _).
  assert (Hn : name m' = lower s).
  { rewrite N, (extracted_absent d "name" Hname), L1, Hpid, Px. reflexivity. }
  exists m', l. split; [exact E|]. split; [exact Hn|]. split.
  - unfold ci_eq_str. cbn. rewrite Hn, lower_idem. apply String.eqb_refl.
  - rewrite V. unfold isinstance_LudeonMod at 1. rewrite C.
    fold (isinstance_LudeonMod m1). rewrite L1. unfold fields_resolved.
    rewrite (extracted_absent d "name" Hname). cbn. apply andb_false_r.
Qed.

Lemma missing_name_defaults_to_identifier_text_witness :
  exists m' l,
    _parse_required sample_dlc_metadata
      [("packageId", NStr "Foo.Bar"); ("description", NStr "A mod");
       ("author", NStr "Someone"); ("supportedVersions", NStr "1.5")]
      RuledMod_new = (Ok m', l)
    /\ name m' = "foo.bar"
    /\ ci_eq_str (CIStr (name m')) "Foo.Bar" = true
    /\ valid m' = false.
Proof.
  exact (@missing_name_defaults_to_identifier_text sample_dlc_metadata
           [("packageId", NStr "Foo.Bar"); ("description", NStr "A mod");
            ("author", NStr "Someone"); ("supportedVersions", NStr "1.5")]
           RuledMod_new "Foo.Bar" eq_refl eq_refl eq_refl eq_refl eq_refl eq_refl).
Defined.

(** C4 as the specification states it fails: the name of the record built
    from a descriptor without a name and with the identifier "Foo.Bar" is
    "foo.bar", the casing of the identifier is not kept. *)
Lemma missing_name_casing_not_preserved :
  exists m' l,
    _parse_required sample_dlc_metadata
      [("packageId", NStr "Foo.Bar"); ("description", NStr "A mod");
       ("author", NStr "Someone"); ("supportedVersions", NStr "1.5")]
      RuledMod_new = (Ok m', l)
    /\ valid m' = false
    /\ name m' = "foo.bar"
    /\ name m' <> "Foo.Bar".
Proof.
  eexists. eexists. split; [vm_compute; reflexivity|].
  split; [reflexivity|]. split; [reflexivity|]. discriminate.
Qed.

(** C3, as the code has it.  For a descriptor whose identifier is in the table
    of official content, the record is a LudeonMod with the app id of the
    table; its name and its description are those of the descriptor where the
    descriptor gives a string, and those of the table otherwise; its validity
    flag is the one it started with, whatever the descriptor holds for the
    name, the description, the authors and the supported versions. *)
Theorem official_content_record :
  forall (tbl : dlc_metadata) (d : dict) (m : ListedMod) (s : string) (n : Z),
    extracted d "packageId" = NStr s ->
    appid_of (get_dlc_packageid_appid_map tbl) (CaseInsensitiveStr_new s) = Some n ->
    versions_hashable d = true ->
    exists e m' l,
      metadata_of tbl n = Some e
      /\ _parse_required tbl d m = (Ok m', l)
      /\ class_of m' = LudeonModClass
      /\ steam_app_id m' = Some n
      /\ name m' =
           match extracted d "name" with NStr x => x | _ => dlc_name e end
      /\ description m' =
           match extracted d "description" with
           | NStr x => x
           | _ => dlc_description e
           end
      /\ valid m' = valid m.
Proof.
  intros tbl d m s n Hpid Htbl Hh.
  destruct (_parse_required_valid tbl d m Hh)
    as (m1 & l1 & m2 & l2 & m' & l & E1 & E2 & E & R & V).
  destruct (parse_package_id_spec (extracted d "packageId") m)
    as (x & lx & Ex & Cx & Px & _).
  rewrite E1 in Ex. inversion Ex; subst x lx. rewrite Hpid in Px.
  destruct (parse_ludeon_spec tbl d m1) as (y & ly & Ey & _ & _ & _ & _ & _ & Off & _).
  rewrite E2 in Ey. inversion Ey; subst y ly.
  rewrite Px in Off. destruct (Off n Htbl) as (e & Me & C2 & S2 & N2 & D2).
  destruct R as (C & _ & S & N & D & _).
  assert (L2 : isinstance_LudeonMod m2 = true)
    by (unfold isinstance_LudeonMod; now rewrite C2).
  exists e, m', l. split; [exact Me|]. split; [exact E|].
  split; [now rewrite C|]. split; [now rewrite S|].
  split; [rewrite N, L2, N2; now destruct (extracted d "name")|].
  split; [rewrite D, D2; now destruct (extracted d "description")|].
  rewrite V, Hpid. unfold isinstance_LudeonMod at 1. rewrite C, C2. cbn.
  now rewrite !andb_true_r.
Qed.

Lemma official_content_record_witness :
  exists m' l,
    _parse_required sample_dlc_metadata [("packageId", NStr "ludeon.rimworld")]
      RuledMod_new = (Ok m', l)
    /\ class_of m' = LudeonModClass
    /\ steam_app_id m' = Some 294100%Z
    /\ name m' = "RimWorld"
    /\ description m' = "Base game"
    /\ valid m' = true.
Proof.
  destruct (@official_content_record sample_dlc_metadata
              [("packageId", NStr "ludeon.rimworld")] RuledMod_new
              "ludeon.rimworld" 294100%Z eq_refl eq_refl eq_refl)
    as (e & m' & l & Me & E & C & S & N & D & V).
  inversion Me; subst e.
  exact (ex_intro _ m' (ex_intro _ l
           (conj E (conj C (conj S (conj N (conj D V))))))).
Defined.

(** C3 as the specification states it fails: a descriptor with the identifier
    of the base game and a name and a description of its own gives a record
    with the name and the description of the descriptor, not of the table. *)
Lemma official_content_name_from_descriptor :
  exists m' l,
    _parse_required sample_dlc_metadata
      [("packageId", NStr "ludeon.rimworld"); ("name", NStr "Core");
       ("description", NStr "The core of the game")]
      RuledMod_new = (Ok m', l)
    /\ class_of m' = LudeonModClass
    /\ valid m' = true
    /\ name m' = "Core" /\ name m' <> "RimWorld"
    /\ description m' = "The core of the game"
    /\ description m' <> "Base game".
Proof.
  eexists. eexists. split; [vm_compute; reflexivity|].
  repeat split; try reflexivity; discriminate.
Qed.

(** ** The entry points *)

Lemma _parse_optional_raises (d : dict) (m : ListedMod) (tv : string) :
  exists e l, _parse_optional d m tv = (Raise e, l).
Proof.
  unfold _parse_optional, bind.
  destruct (_parse_optional_fields d m tv) as [[m'|e] l]; cbn.
  - now exists NotImplementedError, (l ++ []).
  - now exists e, l.
Qed.

(** No call of [create_listed_mod] returns. *)
Lemma create_listed_mod_raises (tbl : dlc_metadata) (d : dict) (tv : string) :
  exists e l, create_listed_mod tbl d tv = (Raise e, l).
Proof.
  unfold create_listed_mod.
  destruct (_parse_required tbl d RuledMod_new) as [[m|e] l] eqn:E.
  - set (m0 := if isinstance_RuledMod m then m else with_class m RuledModClass).
    destruct (_parse_optional_raises d m0 tv) as (e & l' & E').
    exists e, (l ++ l'). unfold bind at 1. cbv beta iota.
    unfold bind. fold m0. now rewrite E'.
  - now exists e, l.
Qed.

(** C1, on the code.  The descriptor with an identifier, a name, a
    description, an author and a supported version passes the required
    fields with a valid record, but [create_listed_mod] does not return it:
    [_parse_optional] ends with [raise NotImplementedError], which nothing
    catches, so that the exception leaves [create_listed_mod_from_xml] too.
    The same holds for every descriptor: no call of [create_listed_mod]
    returns. *)
Theorem create_listed_mod_not_implemented :
  (exists m,
     _parse_required sample_dlc_metadata complete_descriptor RuledMod_new
     = (Ok m, [])
     /\ valid m = true)
  /\ create_listed_mod sample_dlc_metadata complete_descriptor "1.5"
     = (Raise NotImplementedError, [])
  /\ create_listed_mod_from_xml sample_dlc_metadata
       (fun _ => Ok (NDict [("ModMetaData", NDict complete_descriptor)]))
       "About.xml" "1.5"
     = (Raise NotImplementedError, [])
  /\ forall tbl d tv, is_ok (fst (create_listed_mod tbl d tv)) = false.
Proof.
  split; [eexists; split; [vm_compute; reflexivity | reflexivity]|].
  split; [vm_compute; reflexivity|].
  split; [vm_compute; reflexivity|].
  intros tbl d tv. destruct (create_listed_mod_raises tbl d tv) as (e & l & E).
  now rewrite E.
Qed.

(** ** The rule builder *)

(** C2, on the code.  For the descriptor of the round-trip property and the target "1.5" the
    set [load_before] holds "a" and "c" and not "b": [value_extractor] replaces
    the dict of "loadBeforeByVersion", which has one entry, by the value of
    that entry, a list, so that the test [isinstance(loadByVersion, dict)]
    fails and the entries of the version are not read.  With a second label
    in the dict the matched value is appended as one element, the list, and
    not as its entries. *)
Theorem load_before_by_version_dropped :
  let mod_data :=
    [("loadBefore", NList [NStr "A"]);
     ("loadBeforeByVersion", NDict [("v1.5", NList [NStr "B"])]);
     ("forceLoadBefore", NList [NStr "C"])] in
  (exists rules,
     create_base_rules mod_data "1.5" = (Ok rules, [])
     /\ load_before rules = [CIStr "a"; CIStr "c"]
     /\ ci_mem (CaseInsensitiveStr_new "B") (load_before rules) = false)
  /\ value_extractor (dict_get mod_data "loadBeforeByVersion" (NDict []))
     = NList [NStr "B"]
  /\ load_list
       [("loadBefore", NList [NStr "A"]);
        ("loadBeforeByVersion",
         NDict [("v1.4", NList [NStr "X"]); ("v1.5", NList [NStr "B"])]);
        ("forceLoadBefore", NList [NStr "C"])]
       "loadBefore" "forceLoadBefore" "1.5"
     = Ok [NStr "A"; NList [NStr "B"]; NStr "C"].
Proof.
  intros mod_data. split.
  - eexists. split; [vm_compute; reflexivity|]. split; reflexivity.
  - split; reflexivity.
Qed.

(** *** Dependencies *)

Lemma ci_eqb_compat (a b c : CaseInsensitiveStr) :
  ci_eqb a b = true -> ci_eqb a c = ci_eqb b c /\ ci_eqb c a = ci_eqb c b.
Proof.
  unfold ci_eqb. intros H. apply String.eqb_eq in H. now rewrite H.
Qed.

Lemma key_eqb_compat (a b c : option CaseInsensitiveStr) :
  key_eqb a b = true -> key_eqb a c = key_eqb b c /\ key_eqb c a = key_eqb c b.
Proof.
  destruct a as [a|], b as [b|], c as [c|]; cbn; intros H;
    try discriminate; try (split; reflexivity).
  now apply ci_eqb_compat.
Qed.

Lemma key_eqb_refl (a : option CaseInsensitiveStr) : key_eqb a a = true.
Proof. destruct a as [a|]; cbn; [apply String.eqb_refl | reflexivity]. Qed.

Lemma deps_mem_compat (a b : option CaseInsensitiveStr) (d : deps) :
  key_eqb a b = true -> deps_mem a d = deps_mem b d.
Proof.
  intros H. unfold deps_mem. induction d as [|[k x] d IH]; cbn; [reflexivity|].
  rewrite IH. now destruct (key_eqb_compat a b k H) as [-> _].
Qed.

Lemma deps_mem_app (k : option CaseInsensitiveStr) (d d' : deps) :
  deps_mem k (d ++ d') = deps_mem k d || deps_mem k d'.
Proof. unfold deps_mem. apply existsb_app. Qed.

Lemma deps_find_app (k : option CaseInsensitiveStr) (d d' : deps) :
  deps_find k (d ++ d')
  = match deps_find k d with Some x => Some x | None => deps_find k d' end.
Proof.
  unfold deps_find. induction d as [|[k0 x] d IH]; cbn; [reflexivity|].
  destruct (key_eqb k k0); [reflexivity | exact IH].
Qed.

Lemma deps_find_mem (k : option CaseInsensitiveStr) (d : deps) :
  deps_mem k d = match deps_find k d with Some _ => true | None => false end.
Proof.
  unfold deps_mem, deps_find. induction d as [|[k0 x] d IH]; cbn; [reflexivity|].
  destruct (key_eqb k k0); [reflexivity | exact IH].
Qed.

Lemma count_key_app (k : option CaseInsensitiveStr) (d d' : deps) :
  count_key k (d ++ d') = count_key k d + count_key k d'.
Proof. unfold count_key. now rewrite filter_app, length_app. Qed.

(** The loop over the dependencies, started with the dict [d]: it returns, an
    entry is either added or logged, a key keeps the dependency it has in [d]
    or gets the one of the first entry that gives it, and every later entry
    with the key, as every entry that is not a dict, is logged. *)
Lemma add_dependencies_spec (l : list node) :
  forall d : deps,
  exists d' g,
    add_dependencies d l = (Ok d', g)
    /\ length d' + length g = length d + length l
    /\ (forall k,
          deps_find k d' =
          match deps_find k d with
          | Some x => Some x
          | None => option_map create_mod_dependency (first_with_key k l)
          end)
    /\ (forall k,
          count_key k d' =
          count_key k d
          + if deps_mem k d then 0
            else if existsb (has_key k) l then 1 else 0)
    /\ (forall l1 e l2,
          l = l1 ++ NDict e :: l2 ->
          deps_mem (entry_key e) d || existsb (has_key (entry_key e)) l1 = true ->
          In (WARNING, DuplicateDependency (entry_key e)) g)
    /\ (forall x,
          In x l -> isinstance_dict x = false ->
          In (WARNING, SkippingInvalidDependency x) g).
Proof.
  induction l as [|x l IH]; intros d.
  - exists d, []. split; [reflexivity|]. cbn.
    split; [lia|]. split; [intros k; now destruct (deps_find k d)|].
    split; [intros k; destruct (deps_mem k d); lia|].
    split; [intros [|? ?] ? ? H; discriminate | intros ? []].
  - assert (Skip : isinstance_dict x = false ->
                   add_dependency d x
                   = (Ok d, [(WARNING, SkippingInvalidDependency x)]))
      by (destruct x; cbn; intros H; try discriminate; reflexivity).
    destruct (isinstance_dict x) eqn:Hx.
    + destruct x as [|?|e| |]; try discriminate.
      destruct (deps_mem (entry_key e) d) eqn:Hmem.
      * (* the key is in the dict already: the entry is dropped and logged *)
        destruct (IH d) as (d' & g & E & Hlen & Hfind & Hcount & Hdup & Hskip).
        exists d', ((WARNING, DuplicateDependency (entry_key e)) :: g).
        split.
        { cbn [add_dependencies]. unfold add_dependency.
          fold (entry_key e). rewrite Hmem. cbn. now rewrite E. }
        assert (Hne : forall k, deps_mem k d = false ->
                                key_eqb k (entry_key e) = false).
        { intros k Hk. destruct (key_eqb k (entry_key e)) eqn:K; [|reflexivity].
          rewrite (deps_mem_compat _ _ d K) in Hk. congruence. }
        split; [cbn; lia|].
        split.
        { intros k. rewrite Hfind. pose proof (deps_find_mem k d) as Hm.
          destruct (deps_find k d); [reflexivity|].
          cbn [first_with_key]. now rewrite (Hne k Hm). }
        split.
        { intros k. rewrite Hcount. destruct (deps_mem k d) eqn:Hk; [reflexivity|].
          cbn [existsb has_key]. now rewrite (Hne k Hk). }
        split.
        { intros l1 e' l2 Hl Hc. destruct l1 as [|y l1]; cbn in Hl.
          - inversion Hl; subst. now left.
          - inversion Hl; subst. right. apply (Hdup l1 e' l2 eq_refl).
            cbn [existsb has_key] in Hc.
            destruct (key_eqb (entry_key e') (entry_key e)) eqn:K.
            + rewrite (deps_mem_compat _ _ d K), Hmem. reflexivity.
            + now rewrite orb_false_l in Hc. }
        intros y [<- | Hy] Hd; [discriminate|]. right. now apply Hskip.
      * (* a new key: the entry is added *)
        set (dep := create_mod_dependency e).
        destruct (IH (d ++ [(entry_key e, dep)]))
          as (d' & g & E & Hlen & Hfind & Hcount & Hdup & Hskip).
        exists d', g. split.
        { cbn [add_dependencies]. unfold add_dependency.
          fold (entry_key e). rewrite Hmem. cbn. fold dep. now rewrite E. }
        split; [rewrite Hlen, length_app; cbn; lia|].
        split.
        { intros k. rewrite Hfind, deps_find_app.
          destruct (deps_find k d); [reflexivity|].
          unfold deps_find at 1. cbn [find fst first_with_key].
          now destruct (key_eqb k (entry_key e)). }
        split.
        { intros k. rewrite Hcount, count_key_app, deps_mem_app.
          unfold count_key at 2, deps_mem at 2. cbn [filter existsb fst has_key].
          destruct (key_eqb k (entry_key e)) eqn:K; cbn [length orb].
          - rewrite (deps_mem_compat _ _ d K), Hmem. cbn. lia.
          - rewrite !orb_false_r. destruct (deps_mem k d); cbn; lia. }
        split.
        { intros l1 e' l2 Hl Hc. destruct l1 as [|y l1]; cbn in Hl.
          - inversion Hl; subst. cbn in Hc. rewrite orb_false_r in Hc. congruence.
          - inversion Hl; subst. apply (Hdup l1 e' l2 eq_refl).
            rewrite deps_mem_app. unfold deps_mem at 2. cbn [existsb fst].
            cbn [existsb has_key] in Hc. rewrite orb_false_r.
            now rewrite <- orb_assoc. }
        intros y [<- | Hy] Hd; [discriminate|]. now apply Hskip.
    + (* not a dict: the entry is dropped and logged *)
      destruct (IH d) as (d' & g & E & Hlen & Hfind & Hcount & Hdup & Hskip).
      exists d', ((WARNING, SkippingInvalidDependency x) :: g).
      split; [cbn [add_dependencies]; rewrite (Skip eq_refl); cbn; now rewrite E|].
      assert (Hk : forall k, has_key k x = false)
        by (intros k; destruct x; try reflexivity; discriminate).
      assert (Hf : forall k, first_with_key k (x :: l) = first_with_key k l)
        by (intros k; destruct x; try reflexivity; discriminate).
      split; [cbn; lia|].
      split; [intros k; now rewrite Hfind, Hf|].
      split; [intros k; rewrite Hcount; cbn [existsb]; now rewrite Hk|].
      split.
      { intros l1 e' l2 Hl Hc. destruct l1 as [|y l1]; cbn in Hl.
        - inversion Hl; subst. discriminate.
        - inversion Hl; subst. right. apply (Hdup l1 e' l2 eq_refl).
          cbn [existsb] in Hc. now rewrite Hk in Hc. }
      intros y [<- | Hy] Hd; [now left | right; now apply Hskip].
Qed.

Lemma entry_key_packageId (e : dict) (s : string) :
  dict_find e "packageId" = Some (NStr s) ->
  entry_key e = Some (CaseInsensitiveStr_new s).
Proof.
  intros H. unfold entry_key, create_mod_dependency, dict_get. rewrite H.
  destruct (dict_find e "displayName") as [[]|];
    destruct (dict_find e "workshopUrl") as [[]|]; reflexivity.
Qed.

(** The rules of a descriptor whose "modDependencies" is a list and which has
    no "modDependenciesByVersion" hold the dependencies the loop builds from
    that list. *)
Lemma create_base_rules_dependencies (mod_data : dict) (tv : string)
    (l : list node) (rules : BaseRules) (lg : list log_entry) :
  create_base_rules mod_data tv = (Ok rules, lg) ->
  dict_find mod_data "modDependencies" = Some (NList l) ->
  dict_find mod_data "modDependenciesByVersion" = None ->
  exists g, add_dependencies [] l = (Ok (dependencies rules), g) /\ incl g lg.
Proof.
  intros H Hd Hv. unfold create_base_rules in H.
  unfold dict_get in H at 1 2. rewrite Hd, Hv in H.
  cbn [value_extractor as_list] in H.
  change (keys_are [] "@IgnoreIfNoMatchingField" "#text") with false in H.
  cbv iota in H.
  unfold extend_by_version at 1, match_version in H.
  destruct (major_minor tv) as [[major minor]|e]; [|discriminate].
  cbn [match_version_loop lift] in H.
  apply bind_ok_inv in H as (l0 & g0 & g1 & H0 & H & ->).
  inversion H0; subst l0 g0. cbn [app].
  apply bind_ok_inv in H as (d & g & g2 & Hdeps & H & ->).
  exists g. split; [|apply incl_appl, incl_refl].
  apply bind_ok_inv in H as (lb & ? & ? & _ & H & ->).
  apply bind_ok_inv in H as (la & ? & ? & _ & H & ->).
  apply bind_ok_inv in H as (iw & ? & ? & _ & H & ->).
  apply bind_ok_inv in H as (iw' & ? & ? & _ & H & ->).
  inversion H; subst. exact Hdeps.
Qed.

(** The optional fields and the rules leave the validity flag as it is. *)
Lemma _parse_optional_fields_valid (mod_data : dict) (m : ListedMod)
    (tv : string) (m' : ListedMod) (lg : list log_entry) :
  _parse_optional_fields mod_data m tv = (Ok m', lg) -> valid m' = valid m.
Proof.
  unfold _parse_optional_fields. intros H.
  apply bind_ok_inv in H as (rules & ? & ? & _ & H & _).
  inversion H; subst m'. cbn.
  destruct (nonempty_str (value_extractor (dict_get mod_data "url" NFalse)));
    destruct (nonempty_str (value_extractor (dict_get mod_data "modIconPath" NFalse)));
    destruct (nonempty_str (value_extractor (dict_get mod_data "modVersion" NFalse)));
    reflexivity.
Qed.

(** C6. The loop over a list of dependency entries returns, and each entry is
    either kept or logged once.  The dependency kept for a key is the one of
    the first entry that gives the key, identifiers that differ by case
    giving the same key, and it is the only one with that key; every later
    entry with the key is logged as a duplicate, every entry that is not a
    dict is logged as invalid.  These are the dependencies of the rules, and
    building the rules leaves the validity flag of the record as it is. *)
Theorem duplicate_dependency_first_wins :
  forall l : list node,
  exists d g,
    add_dependencies [] l = (Ok d, g)
    /\ length d + length g = length l
    /\ (forall k,
          deps_find k d = option_map create_mod_dependency (first_with_key k l))
    /\ (forall k, count_key k d = if existsb (has_key k) l then 1 else 0)
    /\ (forall e1 e2 s t,
          dict_find e1 "packageId" = Some (NStr s) ->
          dict_find e2 "packageId" = Some (NStr t) ->
          lower s = lower t ->
          key_eqb (entry_key e1) (entry_key e2) = true)
    /\ (forall l1 e l2,
          l = l1 ++ NDict e :: l2 ->
          existsb (has_key (entry_key e)) l1 = true ->
          In (WARNING, DuplicateDependency (entry_key e)) g)
    /\ (forall x,
          In x l -> isinstance_dict x = false ->
          In (WARNING, SkippingInvalidDependency x) g)
    /\ (forall mod_data tv rules lg,
          create_base_rules mod_data tv = (Ok rules, lg) ->
          dict_find mod_data "modDependencies" = Some (NList l) ->
          dict_find mod_data "modDependenciesByVersion" = None ->
          dependencies rules = d /\ incl g lg)
    /\ (forall mod_data m tv m' lg,
          _parse_optional_fields mod_data m tv = (Ok m', lg) ->
          valid m' = valid m).
Proof.
  intros l.
  destruct (add_dependencies_spec l [])
    as (d & g & E & Hlen & Hfind & Hcount & Hdup & Hskip).
  exists d, g. split; [exact E|]. split; [exact Hlen|].
  split; [exact Hfind|]. split; [exact Hcount|].
  split.
  { intros e1 e2 s t H1 H2 Hst.
    rewrite (entry_key_packageId e1 H1), (entry_key_packageId e2 H2).
    cbn. unfold ci_eqb. cbn. rewrite Hst. apply String.eqb_refl. }
  split; [exact Hdup|]. split; [exact Hskip|].
  split; [|intros; eapply _parse_optional_fields_valid; eassumption].
  intros mod_data tv rules lg Hr Hd Hv.
  destruct (create_base_rules_dependencies _ _ Hr Hd Hv) as (g' & E' & Hincl).
  rewrite E in E'. inversion E'; subst. now split.
Qed.

Lemma duplicate_dependency_first_wins_witness :
  let first := [("packageId", NStr "Foo"); ("displayName", NStr "first")] in
  let second := [("packageId", NStr "foo"); ("displayName", NStr "second")] in
  let l := [NDict first; NStr "x"; NDict second] in
  exists d g,
    add_dependencies [] l = (Ok d, g)
    /\ deps_find (Some (CIStr "foo")) d = Some (create_mod_dependency first)
    /\ count_key (Some (CIStr "foo")) d = 1
    /\ In (WARNING, DuplicateDependency (Some (CIStr "foo"))) g
    /\ In (WARNING, SkippingInvalidDependency (NStr "x")) g
    /\ (exists rules lg,
          create_base_rules [("modDependencies", NList l)] "1.5" = (Ok rules, lg)
          /\ dependencies rules = d /\ incl g lg)
    /\ exists m' lg,
         _parse_optional_fields [("modDependencies", NList l)] RuledMod_new "1.5"
         = (Ok m', lg)
         /\ valid m' = true.
Proof.
  intros first second l.
  destruct (duplicate_dependency_first_wins l)
    as (d & g & E & _ & Hfind & Hcount & _ & Hdup & Hskip & Hrules & Hvalid).
  exists d, g. split; [exact E|].
  split; [exact (Hfind (Some (CIStr "foo")))|].
  split; [exact (Hcount (Some (CIStr "foo")))|].
  split; [exact (Hdup [NDict first; NStr "x"] second [] eq_refl eq_refl)|].
  split; [exact (Hskip (NStr "x") (or_intror (or_introl eq_refl)) eq_refl)|].
  assert (Hr : exists rules lg,
             create_base_rules [("modDependencies", NList l)] "1.5"
             = (Ok rules, lg))
    by (vm_compute; eexists; eexists; reflexivity).
  assert (Ho : exists m' lg,
             _parse_optional_fields [("modDependencies", NList l)]
               RuledMod_new "1.5" = (Ok m', lg))
    by (vm_compute; eexists; eexists; reflexivity).
  destruct Hr as (rules & lg & Hr). destruct Ho as (m' & lg' & Ho).
  split.
  - exists rules, lg. split; [exact Hr|].
    exact (Hrules [("modDependencies", NList l)] "1.5" rules lg Hr
             eq_refl eq_refl).
  - exists m', lg'. split; [exact Ho|].
    exact (Hvalid [("modDependencies", NList l)] RuledMod_new "1.5" m' lg' Ho).
Defined.

(** C8. When the descriptor cannot be deserialized, or its root has no
    "ModMetaData" entry, [create_listed_mod_from_xml] does not raise: it logs
    the error and returns False with the empty ListedMod whose validity flag
    is false.  The call after it gives what it gives on its own. *)
Theorem unparseable_descriptor_rejected :
  forall (tbl : dlc_metadata) (xml_path_to_json : string -> outcome node)
         (mod_xml_path target_version : string),
    (exists e, xml_path_to_json mod_xml_path = Raise e)
    \/ (exists root,
          xml_path_to_json mod_xml_path = Ok root /\ lacks_ModMetaData root) ->
    create_listed_mod_from_xml tbl xml_path_to_json mod_xml_path target_version
    = (Ok (false, ListedMod_invalid), [(ERROR, UnableToParse mod_xml_path)])
    /\ ListedMod_invalid = new_mod ListedModClass false
    /\ valid ListedMod_invalid = false
    /\ forall other tv,
         fst (create_listed_mod_from_xml tbl xml_path_to_json mod_xml_path
                target_version ;;;
              create_listed_mod_from_xml tbl xml_path_to_json other tv)
         = fst (create_listed_mod_from_xml tbl xml_path_to_json other tv).
Proof.
  intros tbl fs path tv H.
  assert (E : create_listed_mod_from_xml tbl fs path tv
              = (Ok (false, ListedMod_invalid), [(ERROR, UnableToParse path)])).
  { unfold create_listed_mod_from_xml.
    destruct H as [[e ->] | (root & -> & Hroot)]; [reflexivity|].
    destruct root as [| |d| |]; try reflexivity.
    cbn in Hroot. cbn [subscript]. now rewrite Hroot. }
  split; [exact E|]. split; [reflexivity|]. split; [reflexivity|].
  intros other tv'. rewrite E. unfold bind.
  now destruct (create_listed_mod_from_xml tbl fs other tv') as [r l].
Qed.

Lemma unparseable_descriptor_rejected_witness :
  create_listed_mod_from_xml sample_dlc_metadata
    (fun _ => Ok (NDict [("Defs", NNone)])) "About.xml" "1.5"
  = (Ok (false, ListedMod_invalid), [(ERROR, UnableToParse "About.xml")])
  /\ create_listed_mod_from_xml sample_dlc_metadata
       (fun _ => Raise DeserializationError) "About.xml" "1.5"
     = (Ok (false, ListedMod_invalid), [(ERROR, UnableToParse "About.xml")]).
Proof.
  split.
  - exact (proj1 (@unparseable_descriptor_rejected sample_dlc_metadata
                    (fun _ => Ok (NDict [("Defs", NNone)])) "About.xml" "1.5"
                    (or_intror (ex_intro _ (NDict [("Defs", NNone)])
                                  (conj eq_refl eq_refl))))).
  - exact (proj1 (@unparseable_descriptor_rejected sample_dlc_metadata
                    (fun _ => Raise DeserializationError) "About.xml" "1.5"
                    (or_introl (ex_intro _ DeserializationError eq_refl)))).
Defined.

(** * Further properties of the factory *)

(** ** value_extractor *)

(** X1.  On a tree whose text payloads are strings, extracting twice is
    extracting once: the value extracted is a string, a list, None or a dict
    that is not a wrapper (it has no entry or several), never the False of an
    absent key. *)
Theorem value_extractor_fixed_point :
  forall n : node,
    text_payload_is_str n = true ->
    value_extractor (value_extractor n) = value_extractor n
    /\ value_extractor n <> NFalse
    /\ forall k v, value_extractor n <> NDict [(k, v)].
Proof.
  fix IH 1. intros n H. destruct n as [s|l|d| |].
  - cbn. repeat split; try reflexivity; intros; discriminate.
  - cbn. repeat split; try reflexivity; intros; discriminate.
  - destruct d as [|[k0 v0] [|p rest]].
    + cbn. repeat split; try reflexivity; intros; discriminate.
    + cbn in H. cbn [value_extractor]. apply IH. exact H.
    + cbn [value_extractor text_payload_is_str] in *.
      destruct (keys_are ((k0, v0) :: p :: rest) "@IgnoreIfNoMatchingField" "#text")
        eqn:K.
      * destruct (dict_get ((k0, v0) :: p :: rest) "#text" NNone);
          try discriminate.
        cbn. repeat split; try reflexivity; intros; discriminate.
      * cbn [value_extractor]. rewrite K. repeat split; try reflexivity; intros; discriminate.
  - cbn. repeat split; try reflexivity; intros; discriminate.
  - cbn. repeat split; try reflexivity; intros; discriminate.
Qed.

Lemma value_extractor_fixed_point_witness :
  let n :=
    NDict [("supportedVersions",
            NDict [("li", NDict [("@IgnoreIfNoMatchingField", NStr "True");
                                 ("#text", NStr "1.5")])])] in
  value_extractor n = NStr "1.5"
  /\ value_extractor (value_extractor n) = value_extractor n.
Proof.
  intros n. split; [reflexivity|].
  exact (proj1 (value_extractor_fixed_point n eq_refl)).
Defined.

(** ** match_version *)

Lemma has_dot_split (s : string) :
  has_dot s = true ->
  exists a b, has_dot a = false /\ s = (a ++ String "."%char b)%string.
Proof.
  induction s as [|c s IH]; cbn; [discriminate|].
  destruct (Ascii.eqb c ".") eqn:E.
  - intros _. apply Ascii.eqb_eq in E. subst c. now exists ""%string, s.
  - cbn. intros H. destruct (IH H) as (a & b & Ha & ->).
    exists (String c a), b. cbn. now rewrite E.
Qed.

(** A target with a dot has a major and a minor. *)
Lemma major_minor_has_dot (tv : string) :
  has_dot tv = true -> exists major minor, major_minor tv = Ok (major, minor).
Proof.
  intros H. destruct (has_dot_split tv H) as (a & b & Ha & ->).
  unfold major_minor, split_dot. rewrite split_on_sep by assumption.
  destruct (split_on "." "" b) as [|x xs] eqn:E.
  - now apply split_on_nonempty in E.
  - cbn. now exists a, x.
Qed.

(** The shape of what the loop returns, from the list built so far. *)
Lemma match_version_loop_shape (regex : string) (b : bool) (items : dict) :
  forall results f r,
    match_version_loop regex b items results = Ok (f, r) ->
    (f = false /\ r = None /\ results = [])
    \/ (f = true
        /\ exists l,
             r = Some l /\ l <> []
             /\ (forall v, In v l ->
                   In v results
                   \/ exists k, In (k, v) items /\ re_match regex k = Some true)
             /\ (b = true -> results = [] -> length l = 1)).
Proof.
  induction items as [|[key value] rest IH]; intros results f r H.
  - cbn in H. destruct results as [|x xs]; inversion H; subst.
    + now left.
    + right. split; [reflexivity|]. exists (x :: xs).
      repeat split; try discriminate. intros v Hv. now left.
  - cbn [match_version_loop] in H.
    destruct (re_match regex key) as [[|]|] eqn:R; [| |discriminate].
    + destruct b.
      * inversion H; subst. right. split; [reflexivity|]. exists [value].
        repeat split; try discriminate.
        intros v [<- | []]. right. exists key. split; [now left | exact R].
      * destruct (IH _ _ _ H) as [(_ & _ & Hnil) | (-> & l & -> & Hl & Hin & _)].
        { now destruct results. }
        right. split; [reflexivity|]. exists l. repeat split; try assumption.
        -- intros v Hv. destruct (Hin v Hv) as [Hr | (k & Hk & Rk)].
           ++ apply in_app_or in Hr as [Hr | [<- | []]]; [now left|].
              right. exists key. split; [now left | exact R].
           ++ right. exists k. split; [now right | exact Rk].
        -- discriminate.
    + destruct (IH _ _ _ H) as [Hn | (-> & l & -> & Hl & Hin & Hlen)];
        [now left|].
      right. split; [reflexivity|]. exists l. repeat split; try assumption.
      intros v Hv. destruct (Hin v Hv) as [Hr | (k & Hk & Rk)]; [now left|].
      right. exists k. split; [now right | exact Rk].
Qed.

(** X2.  What [match_version] returns is [(False, None)] or [(True, values)] with
    a list that is not empty: the flag says whether there is a list.  Every
    value of the list is the value of an entry of the input whose label the
    pattern of the target matches, and with [stop_at_first] the list has one
    value. *)
Theorem match_version_result_shape :
  forall (input : dict) (target_version : string) (stop_at_first found : bool)
         (values : option (list node)),
    match_version input target_version stop_at_first = Ok (found, values) ->
    (found = false /\ values = None)
    \/ (found = true
        /\ exists l,
             values = Some l /\ l <> []
             /\ (forall v, In v l ->
                   exists label,
                     In (label, v) input
                     /\ forall major minor,
                          major_minor target_version = Ok (major, minor) ->
                          re_match (version_regex major minor) label = Some true)
             /\ (stop_at_first = true -> length l = 1)).
Proof.
  intros input tv b f r H. unfold match_version in H.
  destruct (major_minor tv) as [[major minor]|e]; [|discriminate].
  destruct (match_version_loop_shape _ _ _ _ H)
    as [(-> & -> & _) | (-> & l & -> & Hl & Hin & Hlen)]; [now left|].
  right. split; [reflexivity|]. exists l.
  split; [reflexivity|]. split; [exact Hl|]. split.
  - intros v Hv. destruct (Hin v Hv) as [[] | (k & Hk & Rk)].
    exists k. split; [exact Hk|].
    intros major' minor' Hmm. now inversion Hmm; subst.
  - intros Hb. now apply Hlen.
Qed.

Lemma match_version_result_shape_witness :
  exists l,
    match_version [("v1.4", NStr "a"); ("v1.5", NStr "b")] "1.5" false
    = Ok (true, Some l)
    /\ l <> []
    /\ forall v, In v l ->
         exists label,
           In (label, v) [("v1.4", NStr "a"); ("v1.5", NStr "b")]
           /\ re_match (version_regex "1" "5") label = Some true.
Proof.
  destruct (@match_version_result_shape
              [("v1.4", NStr "a"); ("v1.5", NStr "b")] "1.5" false
              true (Some [NStr "b"]) eq_refl)
    as [(H & _) | (_ & l & E & Hl & Hin & _)]; [discriminate H|].
  exists l. injection E as <-. split; [reflexivity|]. split; [exact Hl|].
  intros v Hv. destruct (Hin v Hv) as (label & Hlab & Hre).
  exists label. split; [exact Hlab|]. exact (Hre "1" "5" eq_refl).
Defined.

(** The loop that stops at the first match, against the loop that collects
    them all. *)
Lemma match_version_loop_collected (regex : string) (items : dict) :
  forall results f r,
    results <> [] ->
    match_version_loop regex false items results = Ok (f, r) ->
    f = true /\ exists l, r = Some l /\ firstn 1 l = firstn 1 results.
Proof.
  induction items as [|[key value] rest IH]; intros results f r Hne H.
  - cbn in H. destruct results as [|x xs]; [contradiction|].
    injection H as <- <-. split; [reflexivity|]. now exists (x :: xs).
  - cbn [match_version_loop] in H.
    destruct (re_match regex key) as [[|]|]; [| |discriminate].
    + assert (Hne' : results ++ [value] <> [])
        by (destruct results; discriminate).
      destruct (IH _ _ _ Hne' H) as (-> & l & -> & Hl).
      split; [reflexivity|]. exists l. split; [reflexivity|].
      rewrite Hl. destruct results; [contradiction | reflexivity].
    + now apply IH.
Qed.

Lemma match_version_loop_stop (regex : string) (items : dict) :
  forall f r,
    match_version_loop regex false items [] = Ok (f, r) ->
    match_version_loop regex true items [] = Ok (f, option_map (firstn 1) r).
Proof.
  induction items as [|[key value] rest IH]; intros f r H.
  - cbn in H. injection H as <- <-. reflexivity.
  - cbn [match_version_loop] in *.
    destruct (re_match regex key) as [[|]|]; [| |discriminate].
    + cbn [app] in H.
      assert (Hne : [value] <> []) by discriminate.
      destruct (match_version_loop_collected regex rest Hne H)
        as (-> & l & -> & Hl).
      cbn [option_map]. now rewrite Hl.
    + now apply IH.
Qed.

(** X3.  With [stop_at_first] the result is the result without it, cut to its first
    value. *)
Theorem match_version_stop_at_first_is_head :
  forall (input : dict) (target_version : string) (found : bool)
         (values : option (list node)),
    match_version input target_version false = Ok (found, values) ->
    match_version input target_version true
    = Ok (found, option_map (firstn 1) values).
Proof.
  intros input tv f r. unfold match_version.
  destruct (major_minor tv) as [[major minor]|e]; [|discriminate].
  apply match_version_loop_stop.
Qed.

Lemma match_version_stop_at_first_is_head_witness :
  match_version [("v1.5", NStr "b"); ("v1.5-beta", NStr "c")] "1.5" true
  = Ok (true, Some [NStr "b"]).
Proof.
  exact (@match_version_stop_at_first_is_head
           [("v1.5", NStr "b"); ("v1.5-beta", NStr "c")] "1.5"
           true (Some [NStr "b"; NStr "c"]) eq_refl).
Defined.

(** X4.  The components of the target after the second are not read: a target
    with a patch number selects what the target without it selects, whatever
    the components are. *)
Theorem match_version_ignores_patch :
  forall (input : dict) (major minor rest : string) (stop_at_first : bool),
    has_dot major = false -> has_dot minor = false ->
    match_version input (major ++ "." ++ minor ++ "." ++ rest) stop_at_first
    = match_version input (major ++ "." ++ minor) stop_at_first.
Proof.
  intros input major minor rest b Ha Hb. unfold match_version.
  rewrite (major_minor_more major minor rest Ha Hb).
  now rewrite (major_minor_two major minor Ha Hb).
Qed.

Lemma match_version_ignores_patch_witness :
  match_version [("v1.5", NStr "b")] "1.5.4104" false
  = match_version [("v1.5", NStr "b")] "1.5" false.
Proof.
  exact (@match_version_ignores_patch [("v1.5", NStr "b")] "1" "5" "4104" false
           eq_refl eq_refl).
Defined.

(** ** The rule builder *)

(** All the matches for a target made of plain major and minor. *)
Lemma match_version_plain (input : dict) (major minor rest tv : string) :
  has_dot major = false -> has_dot minor = false ->
  plain major = true -> plain minor = true ->
  tv = (major ++ "." ++ minor)%string
  \/ tv = (major ++ "." ++ minor ++ "." ++ rest)%string ->
  match_version input tv false
  = Ok match matching_values ("v" ++ major ++ "." ++ minor) input with
       | [] => (false, None)
       | vs => (true, Some vs)
       end.
Proof.
  intros Ha Hb Pa Pb Htv.
  assert (Hmm : major_minor tv = Ok (major, minor)).
  { destruct Htv as [-> | ->];
      [now apply major_minor_two | now apply major_minor_more]. }
  unfold match_version. rewrite Hmm.
  now rewrite (match_version_loop_all _ input
                 (re_literal_version_regex major minor Pa Pb)).
Qed.

Lemma value_extractor_empty_dict : value_extractor (NDict []) = NDict [].
Proof. reflexivity. Qed.

(** X5.  [create_base_rules] splits the target before it looks at any label: with
    a target without a dot it raises ValueError, and logs nothing, as soon as
    "modDependenciesByVersion" is absent from the descriptor or is a dict of
    several labels. *)
Theorem create_base_rules_target_without_dot :
  forall (mod_data : dict) (target_version : string),
    has_dot target_version = false ->
    isinstance_dict
      (value_extractor (dict_get mod_data "modDependenciesByVersion" (NDict [])))
    = true ->
    create_base_rules mod_data target_version = (Raise ValueError, []).
Proof.
  intros mod_data tv Hdot Hd. unfold create_base_rules.
  destruct (value_extractor
              (dict_get mod_data "modDependenciesByVersion" (NDict [])))
    as [| |d| |]; try discriminate.
  unfold extend_by_version, match_version.
  now rewrite (major_minor_no_dot tv Hdot).
Qed.

Lemma create_base_rules_target_without_dot_witness :
  create_base_rules [("loadBefore", NList [NStr "A"])] "15"
  = (Raise ValueError, []).
Proof.
  exact (@create_base_rules_target_without_dot
           [("loadBefore", NList [NStr "A"])] "15" eq_refl eq_refl).
Defined.

(** X6.  A descriptor with none of the keys of the rules gives, for a target with
    a dot, the empty rules and no log. *)
Theorem create_base_rules_without_rule_keys :
  forall (mod_data : dict) (target_version : string),
    has_dot target_version = true ->
    (forall key, In key rule_keys -> dict_find mod_data key = None) ->
    create_base_rules mod_data target_version = (Ok BaseRules_new, []).
Proof.
  intros mod_data tv Hdot Hk.
  destruct (major_minor_has_dot tv Hdot) as (major & minor & Hmm).
  assert (G : forall key default,
             In key rule_keys -> dict_get mod_data key default = default).
  { intros key default Hin. unfold dict_get. now rewrite (Hk key Hin). }
  assert (Hmv : match_version [] tv false = Ok (false, None))
    by (unfold match_version; now rewrite Hmm).
  unfold create_base_rules, load_operations, load_list, extend_by_version.
  cbn [append].
  rewrite !G by (unfold rule_keys; cbn; tauto).
  rewrite value_extractor_empty_dict. cbn [value_extractor as_list].
  rewrite Hmv. reflexivity.
Qed.

Lemma create_base_rules_without_rule_keys_witness :
  create_base_rules complete_descriptor "1.5" = (Ok BaseRules_new, []).
Proof.
  apply (@create_base_rules_without_rule_keys complete_descriptor "1.5" eq_refl).
  intros key Hin. unfold rule_keys in Hin. cbn in Hin.
  repeat (destruct Hin as [<- | Hin]; [reflexivity|]). destruct Hin.
Defined.

(** X7.  The list [load_operations] makes a set of, for a target of plain major
    and minor: the entries of the key, then one element for each matching
    label of the ByVersion dict, which is the whole value of the label, then
    the entries of the force key. *)
Theorem load_list_order :
  forall (mod_data : dict) (key force_key major minor rest target_version : string),
    has_dot major = false -> has_dot minor = false ->
    plain major = true -> plain minor = true ->
    target_version = (major ++ "." ++ minor)%string
    \/ target_version = (major ++ "." ++ minor ++ "." ++ rest)%string ->
    load_list mod_data key force_key target_version
    = Ok (as_list (value_extractor (dict_get mod_data key (NList [])))
          ++ match value_extractor
                     (dict_get mod_data (key ++ "ByVersion") (NDict [])) with
             | NDict by_version =>
                 matching_values ("v" ++ major ++ "." ++ minor) by_version
             | _ => []
             end
          ++ as_list (value_extractor (dict_get mod_data force_key (NList [])))).
Proof.
  intros mod_data key force_key major minor rest tv Ha Hb Pa Pb Htv.
  unfold load_list, extend_by_version.
  destruct (value_extractor (dict_get mod_data (key ++ "ByVersion") (NDict [])))
    as [s|l|d| |]; try reflexivity.
  rewrite (@match_version_plain d major minor rest tv Ha Hb Pa Pb Htv).
  destruct (matching_values ("v" ++ major ++ "." ++ minor) d) as [|x xs].
  - reflexivity.
  - now rewrite <- app_assoc.
Qed.

Lemma load_list_order_witness :
  load_list
    [("loadAfter", NDict [("li", NList [NStr "A"; NStr "B"])]);
     ("loadAfterByVersion",
      NDict [("v1.4", NDict [("li", NStr "X")]);
             ("v1.5", NDict [("li", NStr "Y")])]);
     ("forceLoadAfter", NDict [("li", NStr "C")])]
    "loadAfter" "forceLoadAfter" "1.5"
  = Ok [NStr "A"; NStr "B"; NDict [("li", NStr "Y")]; NStr "C"].
Proof.
  exact (@load_list_order
           [("loadAfter", NDict [("li", NList [NStr "A"; NStr "B"])]);
            ("loadAfterByVersion",
             NDict [("v1.4", NDict [("li", NStr "X")]);
                    ("v1.5", NDict [("li", NStr "Y")])]);
            ("forceLoadAfter", NDict [("li", NStr "C")])]
           "loadAfter" "forceLoadAfter" "1" "5" "" "1.5"
           eq_refl eq_refl eq_refl eq_refl (or_introl eq_refl)).
Defined.

(** X8.  A ByVersion dict with one label is never matched against the target:
    [value_extractor] replaces it by what it extracts from the value of the
    label, and unless that is a dict again the list is the entries of the key
    and of the force key, for every target, matching or not, with a dot or
    not. *)
Theorem load_list_single_label_ignored :
  forall (mod_data : dict) (key force_key target_version label : string)
         (value : node),
    dict_find mod_data (key ++ "ByVersion") = Some (NDict [(label, value)]) ->
    isinstance_dict (value_extractor value) = false ->
    load_list mod_data key force_key target_version
    = Ok (as_list (value_extractor (dict_get mod_data key (NList [])))
          ++ as_list (value_extractor (dict_get mod_data force_key (NList [])))).
Proof.
  intros mod_data key force_key tv label value Hf Hv.
  unfold load_list, extend_by_version.
  replace (dict_get mod_data (key ++ "ByVersion") (NDict []))
    with (NDict [(label, value)]) by (unfold dict_get; now rewrite Hf).
  cbn [value_extractor].
  destruct (value_extractor value); try reflexivity. discriminate.
Qed.

Lemma load_list_single_label_ignored_witness :
  load_list
    [("loadBefore", NList [NStr "A"]);
     ("loadBeforeByVersion", NDict [("v1.5", NDict [("li", NStr "B")])])]
    "loadBefore" "forceLoadBefore" "1.5"
  = Ok [NStr "A"].
Proof.
  exact (@load_list_single_label_ignored
           [("loadBefore", NList [NStr "A"]);
            ("loadBeforeByVersion", NDict [("v1.5", NDict [("li", NStr "B")])])]
           "loadBefore" "forceLoadBefore" "1.5" "v1.5"
           (NDict [("li", NStr "B")]) eq_refl eq_refl).
Defined.

(** *** More on dependencies *)

Lemma add_dependencies_app (l1 : list node) :
  forall (d : deps) (l2 : list node) d1 g1 d2 g2,
    add_dependencies d l1 = (Ok d1, g1) ->
    add_dependencies d1 l2 = (Ok d2, g2) ->
    add_dependencies d (l1 ++ l2) = (Ok d2, g1 ++ g2).
Proof.
  induction l1 as [|x l1 IH]; intros d l2 d1 g1 d2 g2 H1 H2.
  - cbn in H1. inversion H1; subst. exact H2.
  - cbn [add_dependencies app] in *.
    apply bind_ok_inv in H1 as (dx & gx & g1' & Hx & H1 & ->).
    rewrite <- app_assoc.
    eapply bind_ok; [exact Hx|]. now apply (IH dx l2 d1 g1' d2 g2).
Qed.

(** The loop only appends to the dict, and what it appends has new keys. *)
Lemma add_dependencies_extends (l : list node) :
  forall (d d' : deps) g,
    add_dependencies d l = (Ok d', g) ->
    exists ext,
      d' = d ++ ext
      /\ forall k, deps_mem k d = true -> deps_mem k ext = false.
Proof.
  induction l as [|x l IH]; intros d d' g H.
  - cbn in H. inversion H; subst. exists []. now rewrite app_nil_r.
  - cbn [add_dependencies] in H.
    apply bind_ok_inv in H as (dx & gx & g' & Hx & H & ->).
    destruct (IH _ _ _ H) as (ext & -> & Hext).
    destruct x as [s|l0|e| |]; cbn in Hx;
      try (inversion Hx; subst dx; now exists ext).
    fold (entry_key e) in Hx.
    destruct (deps_mem (entry_key e) d) eqn:M; cbn in Hx; inversion Hx; subst dx.
    + now exists ext.
    + exists ((entry_key e, create_mod_dependency e) :: ext).
      split; [now rewrite <- app_assoc|].
      intros k Hk. unfold deps_mem at 1. cbn [existsb fst].
      fold (deps_mem k ext).
      rewrite (Hext k) by (rewrite deps_mem_app, Hk; reflexivity).
      destruct (key_eqb k (entry_key e)) eqn:K; [|reflexivity].
      rewrite (deps_mem_compat _ _ d K) in Hk. congruence.
Qed.

(** X9.  Entries that come later in the list, as the ones matched by version do
    after the ones of "modDependencies", never replace, remove or reorder the
    dependencies recorded before them: the dict of the longer list is the
    dict of the shorter one followed by dependencies with new keys, and the
    log of the longer list begins with the log of the shorter one. *)
Theorem add_dependencies_later_entries_only_append :
  forall l1 l2 : list node,
  exists d1 g1 ext g2,
    add_dependencies [] l1 = (Ok d1, g1)
    /\ add_dependencies [] (l1 ++ l2) = (Ok (d1 ++ ext), g1 ++ g2)
    /\ forall k,
         deps_mem k d1 = true ->
         deps_mem k ext = false
         /\ deps_find k (d1 ++ ext) = deps_find k d1.
Proof.
  intros l1 l2.
  destruct (add_dependencies_spec l1 []) as (d1 & g1 & E1 & _).
  destruct (add_dependencies_spec l2 d1) as (d2 & g2 & E2 & _).
  destruct (add_dependencies_extends _ _ E2) as (ext & -> & Hext).
  exists d1, g1, ext, g2. split; [exact E1|].
  split; [exact (add_dependencies_app _ _ _ E1 E2)|].
  intros k Hk. split; [now apply Hext|].
  rewrite deps_find_app. rewrite deps_find_mem in Hk.
  now destruct (deps_find k d1).
Qed.

Lemma add_dependencies_later_entries_only_append_witness :
  let first := [("packageId", NStr "Foo"); ("displayName", NStr "first")] in
  let later := [("packageId", NStr "FOO"); ("displayName", NStr "later")] in
  exists d g,
    add_dependencies [] ([NDict first] ++ [NDict later]) = (Ok d, g)
    /\ deps_find (Some (CIStr "foo")) d = Some (create_mod_dependency first).
Proof.
  intros first later.
  destruct (add_dependencies_later_entries_only_append [NDict first] [NDict later])
    as (d1 & g1 & ext & g2 & E1 & E & H).
  cbn in E1. inversion E1; subst d1 g1.
  exists (([] ++ [(entry_key first, create_mod_dependency first)]) ++ ext),
         ([] ++ g2).
  split; [exact E|].
  exact (proj2 (H (Some (CIStr "foo")) eq_refl)).
Defined.

Lemma entry_key_without_packageId (e : dict) :
  isinstance_str (dict_get e "packageId" NFalse) = false -> entry_key e = None.
Proof.
  unfold entry_key, create_mod_dependency.
  destruct (dict_get e "packageId" NFalse); try discriminate; intros _;
    destruct (dict_get e "displayName" NFalse);
    destruct (dict_get e "workshopUrl" NFalse); reflexivity.
Qed.

(** X10.  Dependency entries without a string "packageId" all have the same key, the
    absent identifier: of two such entries of a list the later one is logged
    as a duplicate, and the dict holds one dependency without identifier. *)
Theorem dependencies_without_identifier_collapse :
  forall (l1 l2 l3 : list node) (e1 e2 : dict),
    isinstance_str (dict_get e1 "packageId" NFalse) = false ->
    isinstance_str (dict_get e2 "packageId" NFalse) = false ->
    exists d g,
      add_dependencies [] (l1 ++ NDict e1 :: l2 ++ NDict e2 :: l3) = (Ok d, g)
      /\ count_key None d = 1
      /\ In (WARNING, DuplicateDependency None) g.
Proof.
  intros l1 l2 l3 e1 e2 H1 H2.
  pose proof (entry_key_without_packageId e1 H1) as K1.
  pose proof (entry_key_without_packageId e2 H2) as K2.
  destruct (add_dependencies_spec (l1 ++ NDict e1 :: l2 ++ NDict e2 :: l3) [])
    as (d & g & E & _ & _ & Hcount & Hdup & _).
  exists d, g. split; [exact E|]. split.
  - rewrite Hcount. cbn [deps_mem existsb count_key filter length].
    rewrite existsb_app. cbn [existsb has_key]. rewrite K1. cbn.
    now rewrite orb_true_r.
  - rewrite <- K2.
    apply (Hdup (l1 ++ NDict e1 :: l2) e2 l3).
    + now rewrite <- app_assoc.
    + cbn [deps_mem existsb orb]. rewrite existsb_app. cbn [existsb has_key].
      rewrite K1, K2. cbn. now rewrite orb_true_r.
Qed.

Lemma dependencies_without_identifier_collapse_witness :
  exists d g,
    add_dependencies []
      [NDict [("li", NStr "Foo")]; NDict [("displayName", NStr "Bar")]]
    = (Ok d, g)
    /\ count_key None d = 1
    /\ In (WARNING, DuplicateDependency None) g.
Proof.
  exact (@dependencies_without_identifier_collapse [] [] []
           [("li", NStr "Foo")] [("displayName", NStr "Bar")] eq_refl eq_refl).
Defined.

(** ** The optional fields *)

(** X11.  When the optional fields and the rules are set, the record keeps its
    class, its identifier, the required fields, the validity flag and the
    path; each of the version, the icon path and the URL is replaced by the
    string of the descriptor when it is a string that is not empty, and kept
    otherwise; the rules are those of [create_base_rules], whose log is the
    log. *)
Theorem _parse_optional_fields_frame :
  forall (mod_data : dict) (m : ListedMod) (target_version : string)
         (m' : ListedMod) (lg : list log_entry),
    _parse_optional_fields mod_data m target_version = (Ok m', lg) ->
    class_of m' = class_of m /\ package_id m' = package_id m
    /\ name m' = name m /\ description m' = description m
    /\ authors m' = authors m
    /\ supported_versions m' = supported_versions m
    /\ valid m' = valid m /\ steam_app_id m' = steam_app_id m
    /\ mod_path m' = mod_path m
    /\ mod_version m' = optional_field mod_data "modVersion" (mod_version m)
    /\ mod_icon_path m' =
         optional_field mod_data "modIconPath" (mod_icon_path m)
    /\ url m' = optional_field mod_data "url" (url m)
    /\ exists rules,
         create_base_rules mod_data target_version = (Ok rules, lg)
         /\ about_rules m' = Some rules.
Proof.
  intros mod_data m tv m' lg H. unfold _parse_optional_fields in H.
  apply bind_ok_inv in H as (rules & g & g' & Hr & H & ->).
  inversion H; subst m'. rewrite app_nil_r.
  unfold optional_field, extracted.
  destruct (nonempty_str (value_extractor (dict_get mod_data "modVersion" NFalse)));
    destruct (nonempty_str (value_extractor (dict_get mod_data "modIconPath" NFalse)));
    destruct (nonempty_str (value_extractor (dict_get mod_data "url" NFalse)));
    cbn; repeat split; try reflexivity; now exists rules.
Qed.

Lemma _parse_optional_fields_frame_witness :
  exists m',
    _parse_optional_fields [("modVersion", NStr "2.1"); ("url", NStr "")]
      RuledMod_new "1.5" = (Ok m', [])
    /\ mod_version m' = Some "2.1" /\ url m' = None /\ valid m' = true.
Proof.
  assert (E : exists m',
             _parse_optional_fields [("modVersion", NStr "2.1"); ("url", NStr "")]
               RuledMod_new "1.5" = (Ok m', []))
    by (vm_compute; eexists; reflexivity).
  destruct E as (m' & E). exists m'. split; [exact E|].
  destruct (_parse_optional_fields_frame _ _ _ E)
    as (_ & _ & _ & _ & _ & _ & V & _ & _ & Hv & _ & Hu & _).
  exact (conj Hv (conj Hu V)).
Defined.

(** ** The entry point, on every input *)

(** X12.  What [create_listed_mod_from_xml] does, case by case.  It returns in two
    cases only, and then it returns False with the empty invalid record: when
    the file cannot be read into a tree with the entry "ModMetaData", and
    when that entry is empty.  In every other case it raises: AttributeError,
    with nothing logged, when the entry is a string or a list, and the
    exception of [create_listed_mod] when it is a dict.  It never returns a
    record built from a descriptor. *)
Theorem create_listed_mod_from_xml_outcomes :
  forall (tbl : dlc_metadata) (xml_path_to_json : string -> outcome node)
         (mod_xml_path target_version : string),
    let result :=
      create_listed_mod_from_xml tbl xml_path_to_json mod_xml_path
        target_version in
    let mod_data :=
      match xml_path_to_json mod_xml_path with
      | Ok root => subscript root "ModMetaData"
      | Raise e => Raise e
      end in
    match mod_data with
    | Raise _ =>
        result = (Ok (false, ListedMod_invalid),
                  [(ERROR, UnableToParse mod_xml_path)])
    | Ok v =>
        if truthy v then
          is_ok (fst result) = false
          /\ (isinstance_dict v = false -> result = (Raise AttributeError, []))
        else
          result = (Ok (false, ListedMod_invalid),
                    [(ERROR, CouldNotParse mod_xml_path)])
    end.
Proof.
  intros tbl fs path tv result mod_data. subst result mod_data.
  unfold create_listed_mod_from_xml.
  destruct (match fs path with
            | Ok root => subscript root "ModMetaData"
            | Raise e => Raise e
            end) as [v|e]; [|reflexivity].
  destruct (truthy v) eqn:T; [|reflexivity]. cbn [negb].
  destruct v as [s|l|d| |]; try discriminate;
    try (split; [reflexivity | intros _; reflexivity]).
  split; [|discriminate].
  destruct (create_listed_mod_raises tbl d tv) as (e & l & E).
  now rewrite E.
Qed.

Lemma create_listed_mod_from_xml_outcomes_witness :
  create_listed_mod_from_xml sample_dlc_metadata
    (fun _ => Ok (NDict [("ModMetaData", NNone)])) "About.xml" "1.5"
  = (Ok (false, ListedMod_invalid), [(ERROR, CouldNotParse "About.xml")])
  /\ create_listed_mod_from_xml sample_dlc_metadata
       (fun _ => Ok (NDict [("ModMetaData", NStr "text")])) "About.xml" "1.5"
     = (Raise AttributeError, []).
Proof.
  split.
  - exact (create_listed_mod_from_xml_outcomes sample_dlc_metadata
             (fun _ => Ok (NDict [("ModMetaData", NNone)])) "About.xml" "1.5").
  - exact (proj2 (create_listed_mod_from_xml_outcomes sample_dlc_metadata
                    (fun _ => Ok (NDict [("ModMetaData", NStr "text")]))
                    "About.xml" "1.5") eq_refl).
Defined.

(** ** The table of official content, again *)

Lemma find_insert_key_same (m : list (string * Z)) (k : string) (v : Z) :
  find (fun x => fst x =? k)%string (insert_key m k v) = Some (k, v).
Proof.
  induction m as [|[k' v'] m IH]; cbn.
  - now rewrite String.eqb_refl.
  - destruct (k' =? k)%string eqn:E; cbn; rewrite E.
    + apply String.eqb_eq in E. now subst.
    + exact IH.
Qed.

Lemma find_insert_key_other (m : list (string * Z)) (k0 k : string) (v0 : Z) :
  k0 <> k ->
  find (fun x => fst x =? k)%string (insert_key m k0 v0)
  = find (fun x => fst x =? k)%string m.
Proof.
  intros Hne. apply String.eqb_neq in Hne.
  induction m as [|[k' v'] m IH]; cbn.
  - now rewrite Hne.
  - destruct (k' =? k0)%string eqn:E; cbn.
    + apply String.eqb_eq in E. subst k'. now rewrite Hne.
    + destruct (k' =? k)%string; [reflexivity | exact IH].
Qed.

Lemma find_fold_insert_other (l : dlc_metadata) (k : string) :
  (forall x, In x l -> dlc_packageid (snd x) <> k) ->
  forall acc,
    find (fun x => fst x =? k)%string
      (fold_left (fun m e => insert_key m (dlc_packageid (snd e)) (fst e)) l acc)
    = find (fun x => fst x =? k)%string acc.
Proof.
  induction l as [|e l IH]; intros H acc; cbn; [reflexivity|].
  rewrite IH by (intros x Hx; apply H; now right).
  apply find_insert_key_other. apply H. now left.
Qed.

Lemma appid_of_last_entry (before after : dlc_metadata) (appid : Z) (entry : dlc) :
  (forall x, In x after -> dlc_packageid (snd x) <> dlc_packageid entry) ->
  forall p,
    ci_text p = dlc_packageid entry ->
    appid_of (get_dlc_packageid_appid_map (before ++ (appid, entry) :: after)) p
    = Some appid.
Proof.
  intros H p Hp.
  unfold appid_of, get_dlc_packageid_appid_map. rewrite Hp.
  rewrite fold_left_app. cbn [fold_left snd fst].
  rewrite (find_fold_insert_other after H).
  now rewrite find_insert_key_same.
Qed.

(** X13.  The app id of a package id in [get_dlc_packageid_appid_map()] is the one
    of the last entry of the table with that package id. *)
Theorem get_dlc_packageid_appid_map_last_entry :
  forall (before after : dlc_metadata) (appid : Z) (entry : dlc),
    (forall x, In x after -> dlc_packageid (snd x) <> dlc_packageid entry) ->
    appid_of (get_dlc_packageid_appid_map (before ++ (appid, entry) :: after))
      (CIStr (dlc_packageid entry))
    = Some appid.
Proof.
  intros before after appid entry H.
  now apply appid_of_last_entry.
Qed.

Lemma get_dlc_packageid_appid_map_last_entry_witness :
  appid_of (get_dlc_packageid_appid_map sample_dlc_metadata)
    (CIStr "ludeon.rimworld.royalty") = Some 1149640%Z
  /\ appid_of (get_dlc_packageid_appid_map sample_dlc_metadata)
       (CIStr "ludeon.rimworld") = Some 294100%Z.
Proof.
  split.
  - refine (@get_dlc_packageid_appid_map_last_entry
              [(294100%Z, {| dlc_packageid := "ludeon.rimworld";
                             dlc_name := "RimWorld";
                             dlc_description := "Base game" |})]
              [] 1149640%Z
              {| dlc_packageid := "ludeon.rimworld.royalty";
                 dlc_name := "RimWorld - Royalty";
                 dlc_description := "Royalty expansion" |} _).
    intros x [].
  - refine (@get_dlc_packageid_appid_map_last_entry []
              [(1149640%Z, {| dlc_packageid := "ludeon.rimworld.royalty";
                              dlc_name := "RimWorld - Royalty";
                              dlc_description := "Royalty expansion" |})]
              294100%Z
              {| dlc_packageid := "ludeon.rimworld";
                 dlc_name := "RimWorld"; dlc_description := "Base game" |} _).
    intros x [<- | []]. discriminate.
Defined.

(** ** The record builder, again *)




(** The identifier and the class of the record [_parse_required] returns. *)
Lemma _parse_required_identity (tbl : dlc_metadata) (d : dict) (m : ListedMod) :
  versions_hashable d = true ->
  exists m1 l1 m2 l2 m' l,
    parse_package_id (extracted d "packageId") m = (Ok m1, l1)
    /\ parse_ludeon tbl d m1 = (Ok m2, l2)
    /\ _parse_required tbl d m = (Ok m', l)
    /\ required_fields d m2 m'
    /\ class_of m1 = class_of m
    /\ package_id m1 =
         match extracted d "packageId" with
         | NStr s => CaseInsensitiveStr_new s
         | _ => package_id m
         end
    /\ package_id m' = package_id m1
    /\ valid m' =
         valid m && isinstance_str (extracted d "packageId")
         && (isinstance_LudeonMod m' || fields_resolved d).
Proof.
  intros Hh.
  destruct (_parse_required_valid tbl d m Hh)
    as (m1 & l1 & m2 & l2 & m' & l & E1 & E2 & E & R & V).
  exists m1, l1, m2, l2, m', l.
  destruct (parse_package_id_spec (extracted d "packageId") m)
    as (x & lx & Ex & Cx & Px & _).
  rewrite E1 in Ex. inversion Ex; subst x lx.
  destruct (parse_ludeon_spec tbl d m1) as (y & ly & Ey & Py & _).
  rewrite E2 in Ey. inversion Ey; subst y ly.
  destruct R as (C & P & R).
  repeat (split; [first [assumption | now repeat split]|]).
  split; [now rewrite P, Py|]. exact V.
Qed.

(** X15.  Official content is detected whatever the case of the identifier of the
    descriptor: when its lower-cased text is the package id of an entry of
    the table, the last one with that package id, the record is a LudeonMod
    with the app id of that entry, and its validity flag is unchanged. *)
Theorem official_content_detected_in_any_case :
  forall (before after : dlc_metadata) (appid : Z) (entry : dlc)
         (d : dict) (m : ListedMod) (s : string),
    (forall x, In x after -> dlc_packageid (snd x) <> dlc_packageid entry) ->
    extracted d "packageId" = NStr s ->
    lower s = dlc_packageid entry ->
    versions_hashable d = true ->
    exists m' l,
      _parse_required (before ++ (appid, entry) :: after) d m = (Ok m', l)
      /\ class_of m' = LudeonModClass
      /\ steam_app_id m' = Some appid
      /\ package_id m' = CIStr (dlc_packageid entry)
      /\ valid m' = valid m.
Proof.
  intros before after appid entry d m s Hlast Hpid Hs Hh.
  set (tbl := before ++ (appid, entry) :: after).
  destruct (_parse_required_identity tbl d m Hh)
    as (m1 & l1 & m2 & l2 & m' & l & E1 & E2 & E & R & C1 & P1 & P' & V).
  rewrite Hpid in P1.
  assert (Ha : appid_of (get_dlc_packageid_appid_map tbl) (package_id m1)
               = Some appid).
  { apply appid_of_last_entry; [exact Hlast|]. rewrite P1. exact Hs. }
  destruct (parse_ludeon_spec tbl d m1)
    as (y & ly & Ey & _ & _ & _ & _ & _ & Off & _).
  rewrite E2 in Ey. inversion Ey; subst y ly.
  destruct (Off appid Ha) as (e & _ & C2 & S2 & _).
  destruct R as (C & _ & S & _).
  exists m', l. split; [exact E|]. split; [now rewrite C|].
  split; [now rewrite S|].
  split; [rewrite P', P1; unfold CaseInsensitiveStr_new; now rewrite Hs|].
  rewrite V, Hpid. unfold isinstance_LudeonMod. rewrite C, C2. cbn.
  now rewrite !andb_true_r.
Qed.

Lemma official_content_detected_in_any_case_witness :
  exists m' l,
    _parse_required sample_dlc_metadata [("packageId", NStr "Ludeon.RimWorld")]
      RuledMod_new = (Ok m', l)
    /\ class_of m' = LudeonModClass
    /\ steam_app_id m' = Some 294100%Z
    /\ valid m' = true.
Proof.
  destruct (@official_content_detected_in_any_case []
              [(1149640%Z, {| dlc_packageid := "ludeon.rimworld.royalty";
                              dlc_name := "RimWorld - Royalty";
                              dlc_description := "Royalty expansion" |})]
              294100%Z
              {| dlc_packageid := "ludeon.rimworld";
                 dlc_name := "RimWorld"; dlc_description := "Base game" |}
              [("packageId", NStr "Ludeon.RimWorld")] RuledMod_new
              "Ludeon.RimWorld"
              ltac:(intros x [<- | []]; discriminate) eq_refl eq_refl eq_refl)
    as (m' & l & E & C & S & _ & V).
  exact (ex_intro _ m' (ex_intro _ l (conj E (conj C (conj S V))))).
Defined.

(** X16.  The descriptors that pass: with a string identifier, name and
    description, an author under "author" or "authors", and supported
    versions that are a string or a list of hashable values, a fresh
    RuledMod comes out of [_parse_required] valid, with the identifier in
    lower case and the name and the description of the descriptor. *)
Theorem _parse_required_complete_descriptor_valid :
  forall (tbl : dlc_metadata) (d : dict) (s nm ds : string),
    extracted d "packageId" = NStr s ->
    extracted d "name" = NStr nm ->
    extracted d "description" = NStr ds ->
    truthy (py_or (extracted d "author") (extracted d "authors")) = true ->
    isinstance_list (extracted d "supportedVersions")
    || isinstance_str (extracted d "supportedVersions") = true ->
    versions_hashable d = true ->
    exists m' l,
      _parse_required tbl d RuledMod_new = (Ok m', l)
      /\ valid m' = true
      /\ package_id m' = CIStr (lower s)
      /\ name m' = nm
      /\ description m' = ds.
Proof.
  intros tbl d s nm ds Hpid Hname Hdesc Hauth Hsv Hh.
  destruct (_parse_required_identity tbl d RuledMod_new Hh)
    as (m1 & l1 & m2 & l2 & m' & l & _ & _ & E & R & _ & P1 & P' & V).
  destruct R as (_ & _ & _ & N & D & _).
  exists m', l. split; [exact E|]. split.
  - rewrite V. unfold fields_resolved.
    rewrite Hpid, Hname, Hdesc, Hauth, Hsv. cbn. apply orb_true_r.
  - split; [rewrite P', P1, Hpid; reflexivity|].
    split; [now rewrite N, Hname | now rewrite D, Hdesc].
Qed.

Lemma _parse_required_complete_descriptor_valid_witness :
  exists m' l,
    _parse_required sample_dlc_metadata complete_descriptor RuledMod_new
    = (Ok m', l)
    /\ valid m' = true
    /\ package_id m' = CIStr "foo.bar"
    /\ name m' = "Foo"
    /\ description m' = "A mod".
Proof.
  exact (@_parse_required_complete_descriptor_valid sample_dlc_metadata
           complete_descriptor "Foo.Bar" "Foo" "A mod"
           eq_refl eq_refl eq_refl eq_refl eq_refl eq_refl).
Defined.

(** X17.  An "author" that is not a string, as the list made from several author
    elements, is not recorded, but it passes the check of the authors: with no
    "authors" beside it the authors block returns the record as it is and
    logs nothing. *)
Theorem author_not_string_records_no_author :
  forall (d : dict) (m : ListedMod),
    isinstance_str (extracted d "author") = false ->
    truthy (extracted d "author") = true ->
    truthy (extracted d "authors") = false ->
    parse_authors d m = (Ok m, []).
Proof.
  intros d m Hs Ht Hf. unfold parse_authors.
  fold (extracted d "author"). fold (extracted d "authors").
  unfold py_or. rewrite Hf.
  destruct (extracted d "author"); try discriminate Hs;
    rewrite !Ht; cbn [negb andb]; try rewrite !Ht; reflexivity.
Qed.

Lemma author_not_string_records_no_author_witness :
  parse_authors [("author", NList [NStr "Ann"; NStr "Bob"])] RuledMod_new
  = (Ok RuledMod_new, []).
Proof.
  exact (@author_not_string_records_no_author
           [("author", NList [NStr "Ann"; NStr "Bob"])] RuledMod_new
           eq_refl eq_refl eq_refl).
Defined.

(** X18.  [_parse_required] fails in one way only: it raises the TypeError of
    [set()] exactly when the list extracted for "supportedVersions" holds a
    list or a dict, and it returns a record otherwise. *)
Theorem _parse_required_raises_only_TypeError :
  forall (tbl : dlc_metadata) (d : dict) (m : ListedMod),
    if versions_hashable d
    then exists m' l, _parse_required tbl d m = (Ok m', l)
    else exists l, _parse_required tbl d m = (Raise TypeError, l).
Proof.
  intros tbl d m.
  destruct (_parse_required_spec tbl d m)
    as (m1 & l1 & m2 & l2 & _ & _ & Hok & Hraise).
  destruct (versions_hashable d).
  - destruct (Hok eq_refl) as (m' & l & E & _). now exists m', l.
  - exact (Hraise eq_refl).
Qed.

(** ** The dependencies of the rules *)

(** X19.  The entries the dependency loop of [create_base_rules] runs over, for a
    target of plain major and minor: the entries of "modDependencies", then
    one entry for each matching label of "modDependenciesByVersion", which is
    the whole value of the label and not the dependencies listed in it. *)
Theorem create_base_rules_dependency_entries :
  forall (mod_data : dict) (major minor rest target_version : string)
         (rules : BaseRules) (lg : list log_entry),
    has_dot major = false -> has_dot minor = false ->
    plain major = true -> plain minor = true ->
    target_version = (major ++ "." ++ minor)%string
    \/ target_version = (major ++ "." ++ minor ++ "." ++ rest)%string ->
    create_base_rules mod_data target_version = (Ok rules, lg) ->
    exists g,
      add_dependencies []
        (as_list (value_extractor (dict_get mod_data "modDependencies" (NList [])))
         ++ match value_extractor
                    (dict_get mod_data "modDependenciesByVersion" (NDict []))
            with
            | NDict by_version =>
                matching_values ("v" ++ major ++ "." ++ minor) by_version
            | _ => []
            end)
      = (Ok (dependencies rules), g)
      /\ incl g lg.
Proof.
  intros mod_data major minor rest tv rules lg Ha Hb Pa Pb Htv H.
  unfold create_base_rules in H.
  apply bind_ok_inv in H as (l0 & g0 & g1 & H0 & H & ->).
  apply bind_ok_inv in H as (d & g & g2 & Hdeps & H & ->).
  assert (Hl0 : l0 =
                as_list (value_extractor
                           (dict_get mod_data "modDependencies" (NList [])))
                ++ match value_extractor
                           (dict_get mod_data "modDependenciesByVersion"
                              (NDict [])) with
                   | NDict by_version =>
                       matching_values ("v" ++ major ++ "." ++ minor) by_version
                   | _ => []
                   end
                /\ g0 = []).
  { unfold lift, extend_by_version in H0.
    destruct (value_extractor
                (dict_get mod_data "modDependenciesByVersion" (NDict [])))
      as [s|l|bv| |]; try (inversion H0; now rewrite app_nil_r).
    rewrite (@match_version_plain bv major minor rest tv Ha Hb Pa Pb Htv) in H0.
    destruct (matching_values ("v" ++ major ++ "." ++ minor) bv);
      inversion H0; [now rewrite app_nil_r | now split]. }
  destruct Hl0 as [-> ->]. exists g. split.
  - apply bind_ok_inv in H as (lb & ? & ? & _ & H & ->).
    apply bind_ok_inv in H as (la & ? & ? & _ & H & ->).
    apply bind_ok_inv in H as (iw & ? & ? & _ & H & ->).
    apply bind_ok_inv in H as (iw' & ? & ? & _ & H & ->).
    inversion H; subst. exact Hdeps.
  - cbn [app]. apply incl_appl, incl_refl.
Qed.

Lemma create_base_rules_dependency_entries_witness :
  let wrapped := NDict [("li", NDict [("packageId", NStr "Bar");
                                      ("displayName", NStr "Bar mod")])] in
  exists rules lg,
    create_base_rules
      [("modDependencies",
        NDict [("li", NDict [("packageId", NStr "Foo");
                             ("displayName", NStr "Foo mod")])]);
       ("modDependenciesByVersion",
        NDict [("v1.4", NDict [("li", NStr "x")]); ("v1.5", wrapped)])]
      "1.5" = (Ok rules, lg)
    /\ exists g,
         add_dependencies []
           [NDict [("packageId", NStr "Foo"); ("displayName", NStr "Foo mod")];
            wrapped]
         = (Ok (dependencies rules), g).
Proof.
  intros wrapped.
  assert (E : exists rules lg,
             create_base_rules
               [("modDependencies",
                 NDict [("li", NDict [("packageId", NStr "Foo");
                                      ("displayName", NStr "Foo mod")])]);
                ("modDependenciesByVersion",
                 NDict [("v1.4", NDict [("li", NStr "x")]); ("v1.5", wrapped)])]
               "1.5" = (Ok rules, lg))
    by (vm_compute; eexists; eexists; reflexivity).
  destruct E as (rules & lg & E). exists rules, lg. split; [exact E|].
  destruct (@create_base_rules_dependency_entries _ "1" "5" "" "1.5" rules lg
              eq_refl eq_refl eq_refl eq_refl (or_introl eq_refl) E)
    as (g & Hg & _).
  exists g. exact Hg.
Defined.
